(** * Retriever: keyword retrieval over Hebrew criteria documents

    A shallow embedding of [Retriever.py].  A Python [str] is a sequence of
    Unicode code points, so a string is a list of code points ([N]); the
    built-in string operations and the few regular expressions of the module
    are written out as functions over such lists. *)

From Stdlib Require Import List NArith ZArith Lia Bool Permutation.
Import ListNotations.

Set Implicit Arguments.

Definition char := N.
Definition str := list char.

Definition str_eq_dec : forall a b : str, {a = b} + {a <> b} :=
  list_eq_dec N.eq_dec.

(** ** The Python built-ins the module relies on *)

Module Py.

Local Open Scope N_scope.

(** [str.isspace] on one code point; the same table decides [\s] in a
    [re] pattern over [str]. *)
Definition isspace (c : char) : bool :=
  ((0x09 <=? c) && (c <=? 0x0D)) || ((0x1C <=? c) && (c <=? 0x20))
  || (c =? 0x85) || (c =? 0xA0) || (c =? 0x1680)
  || ((0x2000 <=? c) && (c <=? 0x200A))
  || (c =? 0x2028) || (c =? 0x2029) || (c =? 0x202F) || (c =? 0x205F)
  || (c =? 0x3000).

(** The line boundaries of [str.splitlines]. *)
Definition islinebreak (c : char) : bool :=
  ((0x0A <=? c) && (c <=? 0x0D)) || ((0x1C <=? c) && (c <=? 0x1E))
  || (c =? 0x85) || (c =? 0x2028) || (c =? 0x2029).

Local Close Scope N_scope.

Fixpoint dropwhile (p : char -> bool) (s : str) : str :=
  match s with
  | [] => []
  | c :: t => if p c then dropwhile p t else s
  end.

Fixpoint takewhile (p : char -> bool) (s : str) : str :=
  match s with
  | [] => []
  | c :: t => if p c then c :: takewhile p t else []
  end.

Definition lstrip (s : str) : str := dropwhile isspace s.
Definition rstrip (s : str) : str := rev (dropwhile isspace (rev s)).
Definition strip (s : str) : str := rstrip (lstrip s).

(** Truth value of a string: [if s] / [not s]. *)
Definition truthy (s : str) : bool :=
  match s with [] => false | _ => true end.

Fixpoint startswith (p s : str) : bool :=
  match p, s with
  | [], _ => true
  | a :: p', b :: s' => N.eqb a b && startswith p' s'
  | _ :: _, [] => false
  end.

(** [sub in s]. *)
Fixpoint contains (sub s : str) : bool :=
  startswith sub s
  || match s with [] => false | _ :: t => contains sub t end.

(** [s.index(sub)]: the lowest index where [sub] occurs; [None] stands for
    the raised [ValueError]. *)
Fixpoint index (s sub : str) : option nat :=
  if startswith sub s then Some 0%nat
  else match s with
       | [] => None
       | _ :: t => option_map S (index t sub)
       end.

(** Slice bounds: a negative bound counts from the end, and both are
    clipped to the sequence. *)
Definition clip (len i : Z) : Z :=
  if (i <? 0)%Z then Z.max 0 (i + len) else Z.min i len.

(** [l[lo:hi]]. *)
Definition slice {A} (l : list A) (lo hi : Z) : list A :=
  let n := Z.of_nat (length l) in
  let a := clip n lo in
  let b := clip n hi in
  firstn (Z.to_nat (b - a)) (skipn (Z.to_nat a) l).

(** [l[:hi]]. *)
Definition slice_to {A} (l : list A) (hi : Z) : list A := slice l 0 hi.

(** [str.splitlines()]: lines end at a line boundary ([\r\n] counting as
    one) and no empty line is reported after the last boundary. *)
Fixpoint splitlines_from (cur : str) (s : str) : list str :=
  match s with
  | [] => match cur with [] => [] | _ => [rev cur] end
  | c :: t =>
      if islinebreak c then
        rev cur ::
          (if N.eqb c 0x0D then
             match t with
             | d :: t' => if N.eqb d 0x0A then splitlines_from [] t'
                          else splitlines_from [] t
             | [] => splitlines_from [] t
             end
           else splitlines_from [] t)
      else splitlines_from (c :: cur) t
  end.

Definition splitlines (s : str) : list str := splitlines_from [] s.

End Py.

(** ** Regular expressions

    A compiled pattern is represented by its matcher at one position: given
    the character before the position (for look-behind) and the text from the
    position on, the length of the match there, if any.  None of the
    patterns of the module matches the empty string. *)

Module Re.

Definition matcher := option char -> str -> option nat.

(** [pattern.split(s)]: scan left to right; a match closes the current
    piece and the scan resumes after it. *)
Fixpoint split_from (m : matcher) (prev : option char) (skip : nat)
    (cur : str) (s : str) : list str :=
  match s with
  | [] => [rev cur]
  | c :: t =>
      match skip with
      | S k => split_from m (Some c) k cur t
      | O =>
          match m prev s with
          | Some (S n) => rev cur :: split_from m (Some c) n [] t
          | _ => split_from m (Some c) O (c :: cur) t
          end
      end
  end.

Definition split (m : matcher) (s : str) : list str :=
  split_from m None O [] s.

(** [pattern.search(s)] followed by [group(0)]: the leftmost match. *)
Fixpoint search_from (m : matcher) (prev : option char) (s : str)
    : option str :=
  match m prev s with
  | Some n => Some (firstn n s)
  | None =>
      match s with
      | [] => None
      | c :: t => search_from m (Some c) t
      end
  end.

Definition search (m : matcher) (s : str) : option str :=
  search_from m None s.

(** [pattern.sub(repl, s)] for a pattern without groups. *)
Fixpoint sub_from (m : matcher) (repl : str) (prev : option char)
    (skip : nat) (s : str) : str :=
  match s with
  | [] => []
  | c :: t =>
      match skip with
      | S k => sub_from m repl (Some c) k t
      | O =>
          match m prev s with
          | Some (S n) => repl ++ sub_from m repl (Some c) n t
          | _ => c :: sub_from m repl (Some c) O t
          end
      end
  end.

Definition sub (m : matcher) (repl : str) (s : str) : str :=
  sub_from m repl None O s.

(** Length of the longest prefix whose characters are all in a class:
    a greedy [[...]*]. *)
Fixpoint run (cls : char -> bool) (s : str) : nat :=
  match s with
  | c :: t => if cls c then S (run cls t) else O
  | [] => O
  end.

(** A greedy [[...]+]. *)
Definition plus (cls : char -> bool) : matcher :=
  fun _ s => match run cls s with O => None | n => Some n end.

End Re.

(** ** Text tools of the module *)

Local Open Scope N_scope.

(** [_NIQQUD_RE]: the class of the Hebrew points and accents, U+0591 to
    U+05C7. *)
Definition is_niqqud (c : char) : bool := (0x0591 <=? c) && (c <=? 0x05C7).

Definition _NIQQUD_RE : Re.matcher :=
  fun _ s => match s with
             | c :: _ => if is_niqqud c then Some 1%nat else None
             | [] => None
             end.

(** [[ \t]+], the pattern of the whitespace clean-up. *)
Definition is_blank (c : char) : bool := (c =? 0x20) || (c =? 0x09).

Definition is_newline (c : char) : bool := c =? 0x0A.

(** One or more [\r?\n], greedily. *)
Fixpoint crlf_run (s : str) : nat :=
  match s with
  | c :: t =>
      if c =? 0x0A then S (crlf_run t)
      else if c =? 0x0D then
        match t with
        | d :: t' => if d =? 0x0A then S (S (crlf_run t')) else O
        | [] => O
        end
      else O
  | [] => O
  end.

(** [_PARAGRAPH_SEP_RE = \n{2,}|(?:\r?\n)+]: the first alternative is tried
    first and, being last in the pattern, is never backtracked into. *)
Definition _PARAGRAPH_SEP_RE : Re.matcher :=
  fun _ s =>
    let n := Re.run is_newline s in
    if (2 <=? n)%nat then Some n
    else match crlf_run s with O => None | k => Some k end.

(** The look-behind [(?<=[\.!?])]. *)
Definition after_terminator (prev : option char) : bool :=
  match prev with
  | Some c => (c =? 0x2E) || (c =? 0x21) || (c =? 0x3F)
  | None => false
  end.

(** [_SENTENCE_SEP_RE = (?<=[\.!?])\s+|\n+]. *)
Definition _SENTENCE_SEP_RE : Re.matcher :=
  fun prev s =>
    match (if after_terminator prev then Re.plus Py.isspace prev s
           else None) with
    | Some n => Some n
    | None => Re.plus is_newline prev s
    end.

(** The class of the tokenizer: [\s], the ASCII marks [, . ; : ( ) [ ] { } / \ -],
    both ASCII quotes, maqaf (U+05BE), en dash and em dash. *)
Definition is_separator (c : char) : bool :=
  Py.isspace c
  || (c =? 0x2C) || (c =? 0x2E) || (c =? 0x3B) || (c =? 0x3A)
  || (c =? 0x28) || (c =? 0x29) || (c =? 0x5B) || (c =? 0x5D)
  || (c =? 0x7B) || (c =? 0x7D) || (c =? 0x22) || (c =? 0x27)
  || (c =? 0x5BE) || (c =? 0x2D) || (c =? 0x2013) || (c =? 0x2014)
  || (c =? 0x2F) || (c =? 0x5C).

Definition _HE_STOPWORDS : list str :=
  [ [0x5E9; 0x5DC]; [0x5E2; 0x5DC]; [0x5D0; 0x5DC]; [0x5E2; 0x5DD];
    [0x5D0; 0x5DD]; [0x5D0; 0x5D5]; [0x5D2; 0x5DD]; [0x5D5; 0x5DB; 0x5DF];
    [0x5D5; 0x5DB; 0x5DF; 0x2C]; [0x5D5; 0x5DB; 0x5DF; 0x2E];
    [0x5D5; 0x5DB; 0x5DF; 0x3B]; [0x5D5; 0x5DB; 0x5DF; 0x3A];
    [0x5D5; 0x5DB; 0x5DF; 0x5BE];
    [0x5DB; 0x5DC]; [0x5DC; 0x5DC; 0x5D0]; [0x5DE; 0x5D1; 0x5DC; 0x5D9];
    [0x5DC; 0x5D0]; [0x5DB; 0x5DF]; [0x5D9; 0x5DB; 0x5D5; 0x5DC];
    [0x5D9; 0x5DB; 0x5D5; 0x5DC; 0x5D4];
    [0x5D9; 0x5DB; 0x5D5; 0x5DC; 0x5D9; 0x5DD]; [0x5D9; 0x5D4; 0x5D9; 0x5D4];
    [0x5EA; 0x5D4; 0x5D9; 0x5D4];
    [0x5DC; 0x5E4; 0x5D9]; [0x5E2; 0x5DC; 0x5BE; 0x5E4; 0x5D9];
    [0x5DC; 0x5E4; 0x5D9; 0x5D4]; [0x5D1; 0x5D4; 0x5EA; 0x5D0; 0x5DD];
    [0x5DC; 0x5DB; 0x5DA]; [0x5DB; 0x5DE; 0x5D5]; [0x5D5; 0x5DB; 0x5D5];
    [0x5D5; 0x5DB; 0x5D5; 0x27]; [0x5D5; 0x5DB; 0x5D5; 0x2019; 0x2E];
    [0x5D5; 0x5DB; 0x5D5; 0x2019]; [0x5D5; 0x5DB; 0x5D5; 0x5F3];
    [0x5D4; 0x5D5; 0x5D0]; [0x5D4; 0x5D9; 0x5D0]; [0x5D4; 0x5DD];
    [0x5D4; 0x5DF]; [0x5E9; 0x5DC; 0x5D5]; [0x5E9; 0x5DC; 0x5D4];
    [0x5E9; 0x5DC; 0x5D4; 0x5DD]; [0x5DC; 0x5D4; 0x5D9; 0x5D5; 0x5EA];
    [0x5DC; 0x5D4]; [0x5DC; 0x5D5]; [0x5D0; 0x5DC; 0x5D9; 0x5D5];
    [0x5D0; 0x5DC; 0x5D9; 0x5D4];
    [0x5D6; 0x5D4]; [0x5D6; 0x5D0; 0x5EA]; [0x5D0; 0x5DC; 0x5D4];
    [0x5D0; 0x5E9; 0x5E8]; [0x5DB; 0x5D9]; [0x5DB; 0x5DA];
    [0x5DB; 0x5DA; 0x2C]; [0x5DB; 0x5DA; 0x2E]; [0x5DB; 0x5DA; 0x3B];
    [0x5DB; 0x5DA; 0x3A];
    [0x5DE; 0x2D]; [0x5DC; 0x2D]; [0x5D1; 0x2D]; [0x5DB; 0x2D];
    [0x5D5; 0x2D]; [0x5E9; 0x2D] ].

Local Close Scope N_scope.

(** Membership in a Python [set] (or [list]) of strings. *)
Definition mem (t : str) (l : list str) : bool :=
  if in_dec str_eq_dec t l then true else false.

Definition normalize_hebrew (text : str) : str :=
  let text := Re.sub _NIQQUD_RE [] text in
  let text := Re.sub (Re.plus is_blank) [0x20%N] text in
  Py.strip text.

(** The comprehension [[p.strip() for p in parts if p.strip()]]. *)
Definition stripped_nonblank (parts : list str) : list str :=
  map Py.strip (filter (fun p => Py.truthy (Py.strip p)) parts).

Definition split_to_paragraphs (text : str) : list str :=
  let parts := stripped_nonblank (Re.split _PARAGRAPH_SEP_RE text) in
  if (length parts <=? 1)%nat then stripped_nonblank (Py.splitlines text)
  else parts.

Definition split_to_sentences (text : str) : list str :=
  let candidates :=
    map Py.strip
      (filter (fun s => Py.truthy s && Py.truthy (Py.strip s))
         (Re.split _SENTENCE_SEP_RE text)) in
  match candidates with
  | [] => [Py.strip text]
  | _ => candidates
  end.

(** The loop that removes duplicates, keeping [seen] and [result]. *)
Definition dedup_step (st : list str * list str) (t : str)
    : list str * list str :=
  let '(seen, result) := st in
  if mem t seen then st else (t :: seen, result ++ [t]).

Definition keywords_from_query (query : str) (min_len : Z) : list str :=
  let qn := normalize_hebrew query in
  let tokens := Re.split (Re.plus is_separator) qn in
  let kws :=
    filter (fun t => Py.truthy t && (min_len <=? Z.of_nat (length t))%Z
                     && negb (mem t _HE_STOPWORDS)) tokens in
  snd (fold_left dedup_step kws ([], [])).

Definition match_score (text_norm : str) (keywords : list str) : nat :=
  fold_left
    (fun score kw =>
       if Py.truthy kw && Py.contains kw text_norm then S score else score)
    keywords O.


(** ** Data model *)

Record CriteriaDocument := mkDoc { id : str; content : str }.

Record RetrievedSection := mkSection {
  source_id : str;
  text : str;
  section_ref : option str
}.

Record RetrieverInput := mkInput {
  criteria_queries : list str;
  criteria_documents : list CriteriaDocument
}.

(** *** Validation on construction

    The models are pydantic models: constructing one runs the field
    validators and raises one validation error that collects every failure,
    so construction is a function into a sum.  The unvalidated input is the
    queries and, for each document, the pair of its two fields. *)

Inductive ValidationFailure :=
| EmptyStringField        (* raised by [CriteriaDocument.non_empty] *)
| NoNonEmptyQuery         (* raised by [RetrieverInput.non_empty_queries] *)
| NoCriteriaDocument.     (* raised by [RetrieverInput.non_empty_docs] *)

Definition validated (A : Type) := (list ValidationFailure + A)%type.

(** [not v.strip()]. *)
Definition blank (v : str) : bool := negb (Py.truthy (Py.strip v)).

Module Validate.

(** [CriteriaDocument.non_empty], run on [id] and on [content]. *)
Definition non_empty (v : str) : list ValidationFailure :=
  if blank v then [EmptyStringField] else [].

(** [RetrieverInput.non_empty_queries]. *)
Definition non_empty_queries (v : list str) : list ValidationFailure :=
  match v with
  | [] => [NoNonEmptyQuery]
  | _ => if forallb (fun q => Py.truthy (Py.strip q)) v then []
         else [NoNonEmptyQuery]
  end.

(** [RetrieverInput.non_empty_docs]. *)
Definition non_empty_docs (v : list CriteriaDocument)
    : list ValidationFailure :=
  match v with
  | [] => [NoCriteriaDocument]
  | _ => []
  end.

End Validate.

Definition new_CriteriaDocument (id content : str)
    : validated CriteriaDocument :=
  match Validate.non_empty id ++ Validate.non_empty content with
  | [] => inr (mkDoc id content)
  | errs => inl errs
  end.

(** The items of [criteria_documents] are validated one by one. *)
Fixpoint new_documents (raw : list (str * str))
    : validated (list CriteriaDocument) :=
  match raw with
  | [] => inr []
  | r :: rest =>
      match new_CriteriaDocument (fst r) (snd r), new_documents rest with
      | inr d, inr ds => inr (d :: ds)
      | inl e, inr _ => inl e
      | inr _, inl e => inl e
      | inl e1, inl e2 => inl (e1 ++ e2)
      end
  end.

(** [RetrieverInput(criteria_queries=..., criteria_documents=...)]: the
    validator of a field runs when the field itself has been built. *)
Definition new_RetrieverInput (queries : list str) (docs : list (str * str))
    : validated RetrieverInput :=
  let query_errors := Validate.non_empty_queries queries in
  match new_documents docs with
  | inl item_errors => inl (query_errors ++ item_errors)
  | inr ds =>
      match query_errors ++ Validate.non_empty_docs ds with
      | [] => inr (mkInput queries ds)
      | errs => inl errs
      end
  end.

(** What a constructed input satisfies. *)
Definition valid_input (i : RetrieverInput) : Prop :=
  criteria_queries i <> []
  /\ Forall (fun q => blank q = false) (criteria_queries i)
  /\ criteria_documents i <> []
  /\ Forall (fun d => blank (id d) = false /\ blank (content d) = false)
       (criteria_documents i).

(** ** Matching *)

Section Retriever.

(** The classes [\d] and [\w] of a [str] pattern are read from the Unicode
    database of the interpreter; they are taken as given. *)
Variable uni_decimal : char -> bool.
Variable uni_word : char -> bool.

Local Open Scope N_scope.

(** The class that continues a section label: [\w], a parenthesis,
    gershayim (U+05F4), the ASCII double quote, geresh (U+05F3) or a
    hyphen. *)
Definition is_label_char (c : char) : bool :=
  uni_word c || (c =? 0x28) || (c =? 0x29) || (c =? 0x5F4) || (c =? 0x22)
  || (c =? 0x5F3) || (c =? 0x2D).

(** The word for section, samekh ayin yod final-pe. *)
Definition seif : str := [0x5E1; 0x5E2; 0x5D9; 0x5E3].

Local Close Scope N_scope.

(** [\s+] followed by [[\d]+]: the greedy [\s+] takes the whole run of
    white space and gives characters back until a digit follows. *)
Fixpoint spaces_then_digit (k : nat) (s : str) : option nat :=
  match k with
  | O => None
  | S k' =>
      match Re.run uni_decimal (skipn k s) with
      | O => spaces_then_digit k' s
      | d => Some (k + d)%nat
      end
  end.

(** [_SECTION_REF_RE]: the word, [\s+], [[\d]+], then the label class
    [*]. *)
Definition _SECTION_REF_RE : Re.matcher :=
  fun _ s =>
    if Py.startswith seif s then
      let s1 := skipn 4 s in
      match spaces_then_digit (Re.run Py.isspace s1) s1 with
      | Some n =>
          Some (4 + n + Re.run is_label_char (skipn n s1))%nat
      | None => None
      end
    else None.

Definition extract_section_ref (around_text : str) : option str :=
  Re.search _SECTION_REF_RE around_text.

(** One iteration of the two scoring loops, on the pair of the best
    segment so far and [best_score]. *)
Definition scan_step (kws : list str) (st : option str * nat) (seg : str)
    : option str * nat :=
  let score := match_score (normalize_hebrew seg) kws in
  if (snd st <? score)%nat then (Some seg, score) else st.

(** The part of [best_snippet_for_query_in_doc] up to the choice of the
    segment: [best_para], [best_sent] and [best_score] after both loops. *)
Definition best_segments (kws : list str) (content : str)
    : option str * option str * nat :=
  let paragraphs := split_to_paragraphs content in
  let '(best_para, best_score) :=
    fold_left (scan_step kws) paragraphs (None, O) in
  if (best_score =? 0)%nat then
    let sentences := split_to_sentences content in
    let '(best_sent, best_score) :=
      fold_left (scan_step kws) sentences (None, best_score) in
    (best_para, best_sent, best_score)
  else (best_para, None, best_score).

Definition ellipsis : str := [0x2026%N].

(** The window searched for a label around the first occurrence of the
    paragraph. *)
Definition window (content best_para : str) (idx : nat) : str :=
  Py.slice content
    (Z.max 0 (Z.of_nat idx - 400))
    (Z.of_nat idx + Z.of_nat (length best_para) + 400).

Definition shorten (raw_snippet : str) (max_snippet_chars : Z) : str :=
  let snippet := Py.strip raw_snippet in
  if (max_snippet_chars <? Z.of_nat (length snippet))%Z then
    Py.rstrip (Py.slice_to snippet max_snippet_chars) ++ ellipsis
  else snippet.

Definition best_snippet_for_query_in_doc (query : str)
    (doc : CriteriaDocument) (max_snippet_chars : Z)
    : option (str * option str) :=
  let kws := keywords_from_query query 2 in
  match kws with
  | [] => None
  | _ =>
      let content := content doc in
      let '(best_para, best_sent, best_score) :=
        best_segments kws content in
      if (best_score =? 0)%nat then None
      else
        let raw_snippet :=
          match best_para with Some p => Some p | None => best_sent end in
        match raw_snippet with
        | None | Some [] => None
        | Some raw =>
            let section_ref := extract_section_ref raw in
            let section_ref :=
              match section_ref, best_para with
              | None, Some p =>
                  match Py.index content p with
                  | Some idx => extract_section_ref (window content p idx)
                  | None => section_ref
                  end
              | _, _ => section_ref
              end in
            Some (shorten raw max_snippet_chars, section_ref)
        end
  end.

Definition not_found : RetrievedSection :=
  mkSection [0x4E; 0x2F; 0x41]%N
    [0x5DC; 0x5D0; 0x20; 0x5E0; 0x5DE; 0x5E6; 0x5D0; 0x20; 0x5DE; 0x5D9;
     0x5D3; 0x5E2; 0x20; 0x5EA; 0x5D5; 0x5D0; 0x5DD; 0x20; 0x5DC; 0x5E9;
     0x5D0; 0x5D9; 0x5DC; 0x5EA; 0x5D4; 0x20; 0x5D1; 0x5DE; 0x5E1; 0x5DE;
     0x5DB; 0x5D9; 0x20; 0x5D4; 0x5E7; 0x5E8; 0x5D9; 0x5D8; 0x5E8; 0x5D9;
     0x5D5; 0x5E0; 0x5D9; 0x5DD; 0x20; 0x5E9; 0x5E1; 0x5D5; 0x5E4; 0x5E7;
     0x5D5; 0x2E]%N
    None.

(** The inner loop of [retrieve] over the documents. *)
Definition collect (q : str) (candidates : list (str * str * option str))
    (d : CriteriaDocument) : list (str * str * option str) :=
  match best_snippet_for_query_in_doc q d 700 with
  | Some (snippet, section_ref) =>
      candidates ++ [(id d, snippet, section_ref)]
  | None => candidates
  end.

(** The body of the loop of [retrieve] over the queries. *)
Definition retrieve_step (docs : list CriteriaDocument) (max_per_query : Z)
    (results : list RetrievedSection) (q : str) : list RetrievedSection :=
  let candidates := fold_left (collect q) docs [] in
  match candidates with
  | [] => results ++ [not_found]
  | _ =>
      fold_left
        (fun results c =>
           let '(doc_id, snippet, section_ref) := c in
           results ++ [mkSection doc_id snippet section_ref])
        (Py.slice_to candidates max_per_query) results
  end.

Definition retrieve (input_data : RetrieverInput) (max_per_query : Z)
    : list RetrievedSection :=
  let queries := criteria_queries input_data in
  let docs := criteria_documents input_data in
  fold_left (retrieve_step docs max_per_query) queries [].

End Retriever.

(** The caller builds the input and then calls [retrieve]; a validation
    error raised by the construction leaves [retrieve] uncalled. *)
Definition run_retriever (uni_decimal uni_word : char -> bool)
    (queries : list str) (docs : list (str * str)) (max_per_query : Z)
    : validated (list RetrievedSection) :=
  match new_RetrieverInput queries docs with
  | inl errs => inl errs
  | inr input_data =>
      inr (retrieve uni_decimal uni_word input_data max_per_query)
  end.

(** The classes [\d] and [\w] on the Basic Latin block and the Hebrew block;
    the concrete runs below stay inside these two blocks. *)
Definition basic_decimal (c : char) : bool :=
  ((0x30 <=? c) && (c <=? 0x39))%N.

Definition basic_word (c : char) : bool :=
  (basic_decimal c || ((0x41 <=? c) && (c <=? 0x5A)) || (c =? 0x5F)
   || ((0x61 <=? c) && (c <=? 0x7A)) || ((0x5D0 <=? c) && (c <=? 0x5EA))
   || ((0x5EF <=? c) && (c <=? 0x5F2)))%N.

(** * Vocabulary of the properties *)

(** ** Substrings, words and pieces *)

(** [a] occurs in [b] as a contiguous substring. *)
Definition infix (a b : str) : Prop := exists p s, b = p ++ a ++ s.

(** A separator is made of characters of the class [w] only; a word is a
    non-empty string without a character of [w]. *)
Definition sep_only (w : char -> bool) (s : str) : Prop :=
  Forall (fun c => w c = true) s.

Definition word (w : char -> bool) (m : str) : Prop :=
  m <> [] /\ Forall (fun c => w c = false) m.

(** The text [t] is the pieces [ps] joined by separators satisfying [P]. *)
Inductive Pieces (P : str -> Prop) : list str -> str -> Prop :=
| Pieces_last p : Pieces P [p] p
| Pieces_more p sep rest t :
    P sep -> Pieces P rest t -> Pieces P (p :: rest) (p ++ sep ++ t).

(** What a matcher promises: a match lies within the text and satisfies
    [P]. *)
Definition matches_only (m : Re.matcher) (P : str -> Prop) : Prop :=
  forall prev s n, m prev s = Some (S n) ->
    (S n <= length s)%nat /\ P (firstn (S n) s).

Notation "'blank_only'" := (sep_only Py.isspace).
Notation "'solid'" := (word Py.isspace).

(** [cuts ps t]: every piece is a substring of the text, and every solid
    word of the text lies in one piece. *)
Definition cuts (ps : list str) (t : str) : Prop :=
  (forall p, In p ps -> infix p t)
  /\ (forall m, solid m -> infix m t -> exists p, In p ps /\ infix m p).

Definition blank_sep (sep : str) : Prop := blank_only sep /\ sep <> [].

(** ** Keywords

    The pipeline of [keywords_from_query] as the documentation words it:
    the tokens are the maximal runs of characters outside the separator
    class; short tokens and stop-words are dropped; of equal tokens the
    first is kept. *)

Definition emit (cur : str) : list str :=
  match cur with [] => [] | _ => [rev cur] end.

Fixpoint tokens_of (cur : str) (s : str) : list str :=
  match s with
  | [] => emit cur
  | c :: t =>
      if is_separator c then emit cur ++ tokens_of [] t
      else tokens_of (c :: cur) t
  end.

Fixpoint dedup_first (l : list str) : list str :=
  match l with
  | [] => []
  | x :: t =>
      x :: filter (fun y => if str_eq_dec y x then false else true)
             (dedup_first t)
  end.

Definition keywords_pipeline (query : str) (min_len : nat) : list str :=
  dedup_first
    (filter (fun t => negb (mem t _HE_STOPWORDS))
       (filter (fun t => (min_len <=? length t)%nat)
          (tokens_of [] (normalize_hebrew query)))).

(** ** Scores and the chosen segment *)

(** The score of a segment for the keywords [kws]. *)
Definition score_of (kws : list str) (seg : str) : nat :=
  match_score (normalize_hebrew seg) kws.

(** The keyword [kw] counts for the text [t]: the test of the loop of
    [match_score]. *)
Definition hit (t : str) (kw : str) : bool :=
  Py.truthy kw && Py.contains kw t.

(** [raw_snippet] of [best_snippet_for_query_in_doc]: the segment the two
    loops settle on, if the best score is positive. *)
Definition raw_snippet (kws : list str) (content : str) : option str :=
  let '(best_para, best_sent, best_score) := best_segments kws content in
  if (best_score =? 0)%nat then None
  else match best_para with Some p => Some p | None => best_sent end.

(** [seg] is the first of the segments [segs] that reaches their highest
    score. *)
Definition first_best (kws : list str) (segs : list str) (seg : str) : Prop :=
  exists l1 l2,
    segs = l1 ++ seg :: l2
    /\ Forall (fun x => score_of kws x < score_of kws seg)%nat l1
    /\ Forall (fun x => score_of kws x <= score_of kws seg)%nat l2.

Definition no_hit (kws : list str) (segs : list str) : Prop :=
  Forall (fun x => score_of kws x <= 0)%nat segs.

(** ** Batches *)

(** The sentinel source. *)
Definition NA : str := [0x4E; 0x2F; 0x41]%N.

Definition to_section (c : str * str * option str) : RetrievedSection :=
  let '(doc_id, snippet, section_ref) := c in
  mkSection doc_id snippet section_ref.

Section Batch.

Variable uni_decimal : char -> bool.
Variable uni_word : char -> bool.

(** The label attached to a chosen paragraph: found in the paragraph, or
    else in the window around its first occurrence in the text. *)
Definition section_lookup (content raw : str) : option str :=
  match extract_section_ref uni_decimal uni_word raw with
  | Some r => Some r
  | None =>
      match Py.index content raw with
      | Some idx =>
          extract_section_ref uni_decimal uni_word (window content raw idx)
      | None => None
      end
  end.

(** The query matches in the document: the document yields a candidate. *)
Definition matches (q : str) (d : CriteriaDocument) : bool :=
  match best_snippet_for_query_in_doc uni_decimal uni_word q d 700 with
  | Some _ => true
  | None => false
  end.

(** The records one query contributes. *)
Definition to_candidate (q : str) (d : CriteriaDocument)
    : list (str * str * option str) :=
  match best_snippet_for_query_in_doc uni_decimal uni_word q d 700 with
  | Some (snippet, section_ref) => [(id d, snippet, section_ref)]
  | None => []
  end.

Definition candidates_of (docs : list CriteriaDocument) (q : str)
    : list (str * str * option str) :=
  flat_map (to_candidate q) docs.

Definition batch (docs : list CriteriaDocument) (max_per_query : Z)
    (q : str) : list RetrievedSection :=
  match candidates_of docs q with
  | [] => [not_found]
  | cands => map to_section (Py.slice_to cands max_per_query)
  end.

End Batch.

(** ** Answers *)

Section Answers.

Variable uni_decimal : char -> bool.
Variable uni_word : char -> bool.

(** The record of the first document, in the order of the input, where the
    query matches; the sentinel if there is none. *)
Definition answer (docs : list CriteriaDocument) (q : str)
    : RetrievedSection :=
  match find (matches uni_decimal uni_word q) docs with
  | Some d =>
      match best_snippet_for_query_in_doc uni_decimal uni_word q d 700 with
      | Some (snippet, section_ref) => mkSection (id d) snippet section_ref
      | None => not_found
      end
  | None => not_found
  end.

(** No document matches the query. *)
Definition unmatched (docs : list CriteriaDocument) (q : str) : bool :=
  negb (existsb (matches uni_decimal uni_word q) docs).

(** The documents where at least one of the queries matches. *)
Definition relevant (queries : list str) (d : CriteriaDocument) : bool :=
  existsb (fun q => matches uni_decimal uni_word q d) queries.

End Answers.

(** ** Validation *)

Definition bad_document (r : str * str) : Prop :=
  blank (fst r) = true \/ blank (snd r) = true.

(** The inputs the construction is documented to reject. *)
Definition rejected (queries : list str) (docs : list (str * str)) : Prop :=
  queries = [] \/ Exists (fun q => blank q = true) queries
  \/ docs = [] \/ Exists bad_document docs.

Definition as_documents (docs : list (str * str)) : list CriteriaDocument :=
  map (fun r => mkDoc (fst r) (snd r)) docs.

(** ** The documented segmentation

    The text is cut at blank lines, that is at runs of two or more line
    breaks [\r?\n], and only when this gives at most one unit is it cut at
    every line boundary. *)

Fixpoint crlf_breaks (s : str) : nat :=
  match s with
  | c :: t =>
      if (c =? 0x0A)%N then S (crlf_breaks t)
      else if (c =? 0x0D)%N then
        match t with
        | d :: t' => if (d =? 0x0A)%N then S (crlf_breaks t') else O
        | [] => O
        end
      else O
  | [] => O
  end.

Definition blank_line : Re.matcher :=
  fun _ s => if (2 <=? crlf_breaks s)%nat then Some (crlf_run s) else None.

Definition paragraphs_by_blank_lines (text : str) : list str :=
  let parts := stripped_nonblank (Re.split blank_line text) in
  if (length parts <=? 1)%nat then stripped_nonblank (Py.splitlines text)
  else parts.

(** ** Concrete inputs *)

Module Run.

Local Open Scope N_scope.

(** The query [aa] and a one-line document that contains it. *)
Definition aa : str := [97; 97].
Definition one_doc_input : RetrieverInput :=
  mkInput [aa] [mkDoc [68] [97; 97; 32; 98; 98]].

(** A one-line document of 702 characters whose 700th character is a
    space. *)
Definition long_content : str := [97; 97] ++ repeat 98 697 ++ [32; 99; 99].
Definition long_input : RetrieverInput :=
  mkInput [aa] [mkDoc [68] long_content].
Definition long_record : RetrievedSection :=
  mkSection [68] ([97; 97] ++ repeat 98 697 ++ ellipsis) None.

(** A query made of two stop-words. *)
Definition stop_query : str := [0x5E9; 0x5DC; 0x20; 0x5E2; 0x5DC].

(** A document whose first line carries a section label and whose second
    line answers the query about the minimal age. *)
Definition age_query : str :=
  [0x5D2; 0x5D9; 0x5DC; 0x20; 0x5DE; 0x5D9; 0x5E0; 0x5D9; 0x5DE; 0x5DC; 0x5D9].
Definition age_line : str :=
  [0x5D2; 0x5D9; 0x5DC; 0x20; 0x5DE; 0x5D9; 0x5E0; 0x5D9; 0x5DE; 0x5DC; 0x5D9;
   0x20; 0x31; 0x38].
Definition law : CriteriaDocument :=
  mkDoc [0x5D7; 0x5D5; 0x5E7]
    ([0x5E1; 0x5E2; 0x5D9; 0x5E3; 0x20; 0x33; 0x28; 0x5D0; 0x29; 0x20;
      0x5D4; 0x5D2; 0x5D3; 0x5E8; 0x5D5; 0x5EA; 0x0A] ++ age_line).
Definition label : str :=
  [0x5E1; 0x5E2; 0x5D9; 0x5E3; 0x20; 0x33; 0x28; 0x5D0; 0x29].
Definition age_input : RetrieverInput := mkInput [age_query] [law].
Definition age_record : RetrievedSection :=
  mkSection [0x5D7; 0x5D5; 0x5E7] age_line (Some label).

Local Close Scope N_scope.

End Run.

(** Further inputs. *)
Module Sample.

Local Open Scope N_scope.

(** A one-line document that carries a section label and the word [aa]. *)
Definition labelled : CriteriaDocument :=
  mkDoc [68] [0x5E1; 0x5E2; 0x5D9; 0x5E3; 0x20; 0x33; 0x20; 0x61; 0x61].

(** The label of that document. *)
Definition section_3 : str := [0x5E1; 0x5E2; 0x5D9; 0x5E3; 0x20; 0x33].

(** A one-line document without a label. *)
Definition plain : CriteriaDocument := mkDoc [68] [97; 97; 32; 98; 98].

(** Two queries with the same two words in opposite order. *)
Definition aa_bb : str := [97; 97; 32; 98; 98].
Definition bb_aa : str := [98; 98; 32; 97; 97].

Local Close Scope N_scope.

End Sample.

(** * Properties *)

(** ** Substrings *)

Lemma infix_refl a : infix a a.
Proof. exists [], []. now rewrite app_nil_r. Qed.

Lemma infix_trans a b c : infix a b -> infix b c -> infix a c.
Proof.
  intros (p & s & ->) (p' & s' & ->).
  exists (p' ++ p), (s ++ s'). now rewrite !app_assoc.
Qed.

Lemma infix_app_l a b c : infix a b -> infix a (b ++ c).
Proof.
  intros (p & s & ->). exists p, (s ++ c). now rewrite <- !app_assoc.
Qed.

Lemma infix_app_r a b c : infix a c -> infix a (b ++ c).
Proof.
  intros (p & s & ->). exists (b ++ p), s. now rewrite <- !app_assoc.
Qed.

Lemma infix_cons a c b : infix a b -> infix a (c :: b).
Proof. intros H. now apply (infix_app_r [c]). Qed.

Lemma infix_nil_inv a : infix a [] -> a = [].
Proof.
  intros (p & s & H). symmetry in H.
  apply app_eq_nil in H as [_ H]. now apply app_eq_nil in H as [H _].
Qed.

Lemma infix_In a b c : infix a b -> In c a -> In c b.
Proof.
  intros (p & s & ->) H. apply in_or_app. right. apply in_or_app. now left.
Qed.

Lemma infix_length a b : infix a b -> (length a <= length b)%nat.
Proof. intros (p & s & ->). rewrite !length_app. lia. Qed.

Lemma infix_filter f a b : infix a b -> infix (filter f a) (filter f b).
Proof.
  intros (p & s & ->). exists (filter f p), (filter f s).
  now rewrite !filter_app.
Qed.

(** An occurrence in [a ++ b] lies in [a], lies in [b], or straddles the
    seam. *)
Lemma infix_cut m a b :
  infix m (a ++ b) ->
  infix m a \/ infix m b \/
  exists m1 m2 a', m = m1 ++ m2 /\ m1 <> [] /\ m2 <> []
                   /\ a = a' ++ m1 /\ exists b', b = m2 ++ b'.
Proof.
  intros (p & s & H). symmetry in H.
  apply app_eq_app in H as [l [[-> H] | [-> H]]].
  - right. left. exists l, s. exact H.
  - apply app_eq_app in H as [l' [[-> H] | [-> H]]].
    + destruct l as [|x l].
      * right. left. exists [], s. now rewrite H.
      * destruct l' as [|y l'].
        -- left. exists p, []. now rewrite !app_nil_r.
        -- right. right. exists (x :: l), (y :: l'), p.
           repeat split; try discriminate. now exists s.
    + left. exists p, l'. reflexivity.
Qed.

Lemma startswith_spec p s :
  Py.startswith p s = true <-> exists t, s = p ++ t.
Proof.
  revert s. induction p as [|a p IH]; intros s; simpl.
  - split; [intros _; now exists s | reflexivity].
  - destruct s as [|b s].
    + split; [discriminate | intros (t & H); discriminate].
    + rewrite andb_true_iff, N.eqb_eq, IH. split.
      * intros (-> & t & ->). now exists t.
      * intros (t & H). injection H as -> ->. split; [reflexivity | now exists t].
Qed.

Lemma contains_spec sub s : Py.contains sub s = true <-> infix sub s.
Proof.
  induction s as [|c s IH].
  - simpl. rewrite orb_false_r, startswith_spec. split.
    + intros (t & H). exists [], t. exact H.
    + intros H. apply infix_nil_inv in H as ->. now exists [].
  - cbn [Py.contains]. rewrite orb_true_iff, startswith_spec, IH. split.
    + intros [(t & ->) | H]; [now exists [], t | now apply infix_cons].
    + intros ([|x p] & t & H).
      * left. now exists t.
      * right. injection H as -> ->. now exists p, t.
Qed.

Lemma index_total s sub : infix sub s -> exists i, Py.index s sub = Some i.
Proof.
  induction s as [|c s IH]; intros H.
  - apply infix_nil_inv in H as ->. now exists O.
  - cbn [Py.index]. destruct (Py.startswith sub (c :: s)) eqn:E.
    + now exists O.
    + destruct H as ([|x p] & t & H).
      * assert (Py.startswith sub (c :: s) = true)
          by (apply startswith_spec; now exists t).
        congruence.
      * injection H as -> ->.
        destruct IH as (i & ->); [now exists p, t | now exists (S i)].
Qed.

Lemma index_sound s sub i :
  Py.index s sub = Some i ->
  exists t, s = firstn i s ++ sub ++ t /\ (i <= length s)%nat.
Proof.
  revert i. induction s as [|c s IH]; intros i; cbn [Py.index].
  - destruct (Py.startswith sub []) eqn:E; [|discriminate].
    intros [= <-]. apply startswith_spec in E as (t & E). exists t.
    split; [exact E | simpl; lia].
  - destruct (Py.startswith sub (c :: s)) eqn:E.
    + intros [= <-]. apply startswith_spec in E as (t & E). exists t.
      split; [exact E | simpl; lia].
    + destruct (Py.index s sub) as [j|] eqn:Ej; [|discriminate].
      intros [= <-]. destruct (IH j eq_refl) as (t & Ht & Hl).
      exists t. split; [|simpl; lia]. simpl. f_equal. exact Ht.
Qed.

(** ** Words and separators

    A word is a non-empty string without a character of the class [w]; a
    separator is made of characters of [w] only.  A word that occurs in a
    text cut at separators occurs in one of the pieces. *)

Section Words.

Variable w : char -> bool.

Lemma word_clash m sep x :
  word w m -> sep_only w sep -> x <> [] ->
  (forall c, In c x -> In c m) -> (forall c, In c x -> In c sep) -> False.
Proof.
  intros [_ Hm] Hs Hx Hxm Hxs. destruct x as [|c x]; [congruence|].
  unfold sep_only in Hs. rewrite Forall_forall in Hm, Hs.
  specialize (Hm c (Hxm c (or_introl eq_refl))).
  specialize (Hs c (Hxs c (or_introl eq_refl))). congruence.
Qed.

Lemma word_not_in_sep m sep : word w m -> sep_only w sep -> ~ infix m sep.
Proof.
  intros Hm Hs H. apply (word_clash (x := m) Hm Hs); auto.
  - apply Hm.
  - intros c. now apply infix_In.
Qed.

Lemma word_drop_l m lead b :
  word w m -> sep_only w lead -> infix m (lead ++ b) -> infix m b.
Proof.
  intros Hm Hs H.
  apply infix_cut in H
    as [H | [H | (m1 & m2 & a' & -> & H1 & _ & -> & _)]]; auto.
  - now apply word_not_in_sep in H.
  - exfalso. apply (word_clash (x := m1) Hm Hs H1); intros c Hc;
      apply in_or_app; auto.
Qed.

Lemma word_drop_r m a trail :
  word w m -> sep_only w trail -> infix m (a ++ trail) -> infix m a.
Proof.
  intros Hm Hs H.
  apply infix_cut in H
    as [H | [H | (m1 & m2 & a' & -> & _ & H2 & _ & b' & ->)]]; auto.
  - now apply word_not_in_sep in H.
  - exfalso. apply (word_clash (x := m2) Hm Hs H2); intros c Hc;
      apply in_or_app; auto.
Qed.

Lemma word_skip_sep m a sep b :
  word w m -> sep_only w sep -> sep <> [] ->
  infix m (a ++ sep ++ b) -> infix m a \/ infix m b.
Proof.
  intros Hm Hs Hne H.
  apply infix_cut in H
    as [H | [H | (m1 & m2 & a' & -> & _ & H2 & _ & b' & E)]]; auto.
  - right. now apply word_drop_l in H.
  - exfalso. destruct sep as [|c sep]; [congruence|].
    destruct m2 as [|c' m2]; [congruence|]. injection E as <- _.
    destruct Hm as [_ Hm]. apply Forall_app in Hm as [_ Hm].
    inversion Hm; subst. inversion Hs; subst. congruence.
Qed.

Lemma Pieces_grow P c p rest t :
  Pieces P (p :: rest) t -> Pieces P ((c :: p) :: rest) (c :: t).
Proof.
  intros H. inversion H; subst.
  - constructor.
  - now apply (Pieces_more (c :: p)).
Qed.

Lemma Pieces_infix P ps t p : Pieces P ps t -> In p ps -> infix p t.
Proof.
  induction 1 as [q | q sep rest t Hs H IH]; intros Hin.
  - destruct Hin as [<- | []]. apply infix_refl.
  - destruct Hin as [<- | Hin].
    + apply infix_app_l, infix_refl.
    + apply infix_app_r, infix_app_r, IH, Hin.
Qed.

Lemma Pieces_cover P ps t m :
  (forall sep, P sep -> sep_only w sep /\ sep <> []) ->
  Pieces P ps t -> word w m -> infix m t ->
  exists p, In p ps /\ infix m p.
Proof.
  intros HP H Hm. induction H as [q | q sep rest t Hs H IH]; intros Hin.
  - exists q. split; [now left | exact Hin].
  - destruct (HP _ Hs) as [Hs1 Hs2].
    apply word_skip_sep in Hin as [Hin | Hin]; auto.
    + exists q. split; [now left | exact Hin].
    + destruct (IH Hin) as (p & Hp & Hmp). exists p. split; [now right | exact Hmp].
Qed.

End Words.

(** [split] cuts the text at matches, and [sub] joins the same pieces with
    the replacement. *)
Lemma split_from_Pieces m P repl :
  matches_only m P ->
  forall s prev skip cur, (skip <= length s)%nat ->
  exists p0 rest,
    Re.split_from m prev skip cur s = (rev cur ++ p0) :: rest
    /\ Pieces P (p0 :: rest) (skipn skip s)
    /\ Pieces (eq repl) (p0 :: rest) (Re.sub_from m repl prev skip s).
Proof.
  intros Hm. induction s as [|c t IH]; intros prev skip cur Hle.
  - simpl in Hle. assert (skip = O) as -> by lia. exists [], [].
    simpl. rewrite app_nil_r. repeat split; constructor.
  - destruct skip as [|k]; cbn [Re.split_from Re.sub_from].
    + destruct (m prev (c :: t)) as [[|n]|] eqn:E.
      * destruct (IH (Some c) O (c :: cur) (Nat.le_0_l _))
          as (p0 & rest & -> & H1 & H2).
        exists (c :: p0), rest. simpl. rewrite <- app_assoc. simpl.
        repeat split; now apply Pieces_grow.
      * destruct (Hm _ _ _ E) as [Hlen HP]. simpl in Hlen.
        destruct (IH (Some c) n [] ltac:(lia)) as (p0 & rest & -> & H1 & H2).
        exists [], (p0 :: rest). rewrite app_nil_r. simpl rev. simpl app at 1.
        repeat split.
        -- rewrite <- (firstn_skipn (S n) (c :: t)) at 1.
           apply (Pieces_more [] _ HP). simpl. exact H1.
        -- apply (Pieces_more [] repl eq_refl H2).
      * destruct (IH (Some c) O (c :: cur) (Nat.le_0_l _))
          as (p0 & rest & -> & H1 & H2).
        exists (c :: p0), rest. simpl. rewrite <- app_assoc. simpl.
        repeat split; now apply Pieces_grow.
    + simpl in Hle. destruct (IH (Some c) k cur ltac:(lia))
        as (p0 & rest & -> & H1 & H2).
      exists p0, rest. repeat split; assumption.
Qed.

Lemma split_Pieces m P :
  matches_only m P -> forall s, Pieces P (Re.split m s) s.
Proof.
  intros Hm s.
  destruct (split_from_Pieces [] Hm s None [] (Nat.le_0_l _))
    as (p0 & rest & E & H & _).
  unfold Re.split. rewrite E. exact H.
Qed.

Lemma sub_Pieces m P repl :
  matches_only m P -> forall s, Pieces (eq repl) (Re.split m s) (Re.sub m repl s).
Proof.
  intros Hm s.
  destruct (split_from_Pieces repl Hm s None [] (Nat.le_0_l _))
    as (p0 & rest & E & _ & H).
  unfold Re.split, Re.sub. rewrite E. exact H.
Qed.

(** ** Trimming *)

Lemma dropwhile_decomp p s :
  exists lead, s = lead ++ Py.dropwhile p s /\ sep_only p lead.
Proof.
  induction s as [|c s (lead & IH & Hl)]; simpl.
  - exists []. split; [reflexivity | constructor].
  - destruct (p c) eqn:E.
    + exists (c :: lead). split; [simpl; now f_equal | now constructor].
    + exists []. split; [reflexivity | constructor].
Qed.

Lemma dropwhile_head p s c t : Py.dropwhile p s = c :: t -> p c = false.
Proof.
  induction s as [|x s IH]; simpl; [discriminate|].
  destruct (p x) eqn:E; [exact IH | intros [= <- _]; exact E].
Qed.

Lemma strip_decomp s :
  exists lead trail,
    s = lead ++ Py.strip s ++ trail /\ blank_only lead /\ blank_only trail.
Proof.
  unfold Py.strip, Py.rstrip, Py.lstrip.
  destruct (dropwhile_decomp Py.isspace s) as (lead & E1 & H1).
  destruct (dropwhile_decomp Py.isspace (rev (Py.dropwhile Py.isspace s)))
    as (trail & E2 & H2).
  exists lead, (rev trail). repeat split; auto.
  - rewrite <- rev_app_distr, <- E2, rev_involutive. exact E1.
  - now apply Forall_rev.
Qed.

Lemma strip_infix s : infix (Py.strip s) s.
Proof. destruct (strip_decomp s) as (l & t & E & _). now exists l, t. Qed.

Lemma solid_in_strip m s : solid m -> infix m s -> infix m (Py.strip s).
Proof.
  intros Hm H. destruct (strip_decomp s) as (l & t & E & Hl & Ht).
  rewrite E in H. apply (word_drop_l _ Hm Hl) in H.
  now apply (word_drop_r _ Hm Ht) in H.
Qed.

Lemma solid_nonempty m s : solid m -> infix m s -> s <> [].
Proof.
  intros [Hm _] H ->. apply infix_nil_inv in H. contradiction.
Qed.

Lemma truthy_true s : Py.truthy s = true <-> s <> [].
Proof. destruct s; simpl; split; congruence. Qed.

(** A string with a character that is not white space does not trim to the
    empty string. *)
Lemma strip_nonempty s c :
  In c s -> Py.isspace c = false -> Py.strip s <> [].
Proof.
  intros Hin Hc.
  assert (Hs : solid [c]) by (split; [discriminate | now repeat constructor]).
  apply (solid_nonempty Hs), solid_in_strip; auto.
  apply in_split in Hin as (a & b & ->). now exists a, b.
Qed.

Lemma strip_head s c t : Py.strip s = c :: t -> Py.isspace c = false.
Proof.
  unfold Py.strip, Py.rstrip, Py.lstrip.
  destruct (Py.dropwhile Py.isspace s) as [|x u] eqn:E; [discriminate|].
  apply dropwhile_head in E. intros H.
  destruct (dropwhile_decomp Py.isspace (rev (x :: u))) as (l & E2 & _).
  apply (f_equal (@rev _)) in E2. rewrite rev_involutive, rev_app_distr, H in E2.
  simpl in E2. injection E2 as -> _. exact E.
Qed.

(** ** The pieces of a text *)

Lemma Pieces_cuts ps t : Pieces blank_sep ps t -> cuts ps t.
Proof.
  intros H. split.
  - intros p. now apply Pieces_infix with (P := blank_sep).
  - intros m. apply Pieces_cover with (P := blank_sep); auto.
Qed.

Lemma cuts_stripped ps t : cuts ps t -> cuts (stripped_nonblank ps) t.
Proof.
  intros [H1 H2]. unfold stripped_nonblank. split.
  - intros p Hp. apply in_map_iff in Hp as (x & <- & Hx).
    apply filter_In in Hx as [Hx _].
    eapply infix_trans; [apply strip_infix | auto].
  - intros m Hm Hin. destruct (H2 m Hm Hin) as (p & Hp & Hmp).
    exists (Py.strip p). pose proof (solid_in_strip Hm Hmp) as Hs. split; auto.
    apply in_map, filter_In. split; auto.
    apply truthy_true. eapply solid_nonempty; eauto.
Qed.

Lemma run_spec cls s :
  (Re.run cls s <= length s)%nat /\ sep_only cls (firstn (Re.run cls s) s).
Proof.
  induction s as [|c s [IH1 IH2]]; simpl.
  - split; [lia | constructor].
  - destruct (cls c) eqn:E; simpl.
    + split; [lia | now constructor].
    + split; [lia | constructor].
Qed.

Lemma firstn_S_nonempty (s : str) n :
  (S n <= length s)%nat -> firstn (S n) s <> [].
Proof. destruct s; simpl; [lia | discriminate]. Qed.

Lemma sep_only_weaken (p q : char -> bool) s :
  (forall c, p c = true -> q c = true) -> sep_only p s -> sep_only q s.
Proof. intros H. apply Forall_impl. exact H. Qed.

Lemma plus_matches cls :
  (forall c, cls c = true -> Py.isspace c = true) ->
  matches_only (Re.plus cls) blank_sep.
Proof.
  intros Hc prev s n. unfold Re.plus.
  destruct (run_spec cls s) as [H1 H2].
  destruct (Re.run cls s) as [|k] eqn:E; [discriminate|].
  intros [= <-]. split; [exact H1|]. split.
  - eapply sep_only_weaken; [exact Hc | exact H2].
  - now apply firstn_S_nonempty.
Qed.

Lemma is_newline_space c : is_newline c = true -> Py.isspace c = true.
Proof. unfold is_newline. rewrite N.eqb_eq. now intros ->. Qed.

Lemma crlf_run_spec n : forall s, (length s <= n)%nat ->
  (crlf_run s <= length s)%nat /\ blank_only (firstn (crlf_run s) s).
Proof.
  induction n as [|n IH]; intros s Hn.
  - destruct s; [|simpl in Hn; lia]. split; [simpl; lia | constructor].
  - destruct s as [|c t]; [split; [simpl; lia | constructor]|].
    simpl in Hn. cbn [crlf_run].
    destruct (N.eqb_spec c 0x0A) as [-> | _].
    + destruct (IH t ltac:(lia)) as [H1 H2]. simpl.
      split; [lia | now constructor].
    + destruct (N.eqb_spec c 0x0D) as [-> | _];
        [|split; [simpl; lia | constructor]].
      destruct t as [|d t']; [split; [simpl; lia | constructor]|].
      destruct (N.eqb_spec d 0x0A) as [-> | _];
        [|split; [simpl; lia | constructor]].
      simpl in Hn. destruct (IH t' ltac:(lia)) as [H1 H2]. simpl.
      split; [lia | now repeat constructor].
Qed.

Lemma paragraph_sep_matches : matches_only _PARAGRAPH_SEP_RE blank_sep.
Proof.
  intros prev s n. unfold _PARAGRAPH_SEP_RE.
  destruct (run_spec is_newline s) as [H1 H2].
  destruct (2 <=? Re.run is_newline s)%nat.
  - intros [= E]. rewrite E in *. split; [exact H1|]. split.
    + eapply sep_only_weaken; [exact is_newline_space | exact H2].
    + now apply firstn_S_nonempty.
  - destruct (@crlf_run_spec (length s) s (le_n _)) as [H3 H4].
    destruct (crlf_run s) as [|k]; [discriminate|]. intros [= <-].
    split; [exact H3|]. split; [exact H4 | now apply firstn_S_nonempty].
Qed.

Lemma sentence_sep_matches : matches_only _SENTENCE_SEP_RE blank_sep.
Proof.
  intros prev s n. unfold _SENTENCE_SEP_RE.
  destruct (after_terminator prev).
  - destruct (Re.plus Py.isspace prev s) as [k|] eqn:E.
    + intros [= ->]. revert E. now apply plus_matches.
    + apply plus_matches, is_newline_space.
  - apply plus_matches, is_newline_space.
Qed.

Ltac class_arith :=
  unfold Py.islinebreak, Py.isspace, is_separator, is_niqqud, is_blank,
    is_newline in *;
  rewrite ?orb_true_iff, ?orb_false_iff, ?andb_true_iff, ?andb_false_iff,
    ?N.leb_le, ?N.leb_gt, ?N.eqb_eq, ?N.eqb_neq in *;
  lia.

Lemma islinebreak_space c : Py.islinebreak c = true -> Py.isspace c = true.
Proof. class_arith. Qed.

Lemma splitlines_from_Pieces n : forall s cur, (length s <= n)%nat ->
  exists p0 rest,
    Pieces blank_sep (p0 :: rest) s
    /\ (Py.splitlines_from cur s = (rev cur ++ p0) :: rest
        \/ Py.splitlines_from cur s ++ [[]] = (rev cur ++ p0) :: rest).
Proof.
  induction n as [|n IH]; intros s cur Hn.
  - destruct s; [|simpl in Hn; lia]. exists [], []. split; [constructor|].
    rewrite app_nil_r. simpl. destruct cur as [|c cur]; [now right|].
    left. reflexivity.
  - destruct s as [|c t].
    { exists [], []. split; [constructor|]. rewrite app_nil_r. simpl.
      destruct cur; [now right | now left]. }
    simpl in Hn. cbn [Py.splitlines_from].
    destruct (Py.islinebreak c) eqn:Ec.
    + assert (Hc : blank_sep [c]).
      { split; [|discriminate]. repeat constructor.
        now apply islinebreak_space. }
      assert (Hone : exists p0 rest,
                 Pieces blank_sep (p0 :: rest) (c :: t)
                 /\ (rev cur :: Py.splitlines_from [] t = (rev cur ++ p0) :: rest
                     \/ (rev cur :: Py.splitlines_from [] t) ++ [[]]
                        = (rev cur ++ p0) :: rest)).
      { destruct (IH t [] ltac:(lia)) as (p1 & rest & HP & HE).
        exists [], (p1 :: rest). rewrite app_nil_r. split.
        - apply (Pieces_more [] _ Hc HP).
        - simpl in HE. destruct HE as [-> | HE]; [now left|].
          right. simpl. f_equal. exact HE. }
      destruct (N.eqb_spec c 0x0D) as [-> | _]; [|exact Hone].
      destruct t as [|d t']; [exact Hone|].
      destruct (N.eqb_spec d 0x0A) as [-> | _]; [|exact Hone].
      simpl in Hn. destruct (IH t' [] ltac:(lia)) as (p1 & rest & HP & HE).
      exists [], (p1 :: rest). rewrite app_nil_r. split.
      * apply (Pieces_more [] [0x0D; 0x0A]%N); [|exact HP].
        split; [now repeat constructor | discriminate].
      * simpl in HE. destruct HE as [-> | HE]; [now left|].
        right. simpl. f_equal. exact HE.
    + destruct (IH t (c :: cur) ltac:(lia)) as (p0 & rest & HP & HE).
      exists (c :: p0), rest. split; [now apply Pieces_grow|].
      simpl in HE. rewrite <- app_assoc in HE. exact HE.
Qed.

Lemma splitlines_cuts s : cuts (Py.splitlines s) s.
Proof.
  destruct (@splitlines_from_Pieces (length s) s [] (le_n _))
    as (p0 & rest & HP & HE).
  apply Pieces_cuts in HP as [H1 H2]. unfold Py.splitlines.
  simpl in HE. unfold str in *.
  destruct HE as [HE | HE]; [rewrite HE; now split|]. split.
  - intros p Hp. apply H1. rewrite <- HE. apply in_or_app. now left.
  - intros m Hm Hin. destruct (H2 m Hm Hin) as (p & Hp & Hmp).
    rewrite <- HE in Hp. apply in_app_or in Hp as [Hp | [<- | []]].
    + now exists p.
    + apply infix_nil_inv in Hmp. destruct Hm. contradiction.
Qed.

Lemma paragraphs_cut text : cuts (split_to_paragraphs text) text.
Proof.
  unfold split_to_paragraphs.
  destruct (length (stripped_nonblank (Re.split _PARAGRAPH_SEP_RE text)) <=? 1)%nat.
  - apply cuts_stripped, splitlines_cuts.
  - apply cuts_stripped, Pieces_cuts, split_Pieces, paragraph_sep_matches.
Qed.

Lemma paragraph_nonempty text p :
  In p (split_to_paragraphs text) -> p <> [].
Proof.
  assert (H : forall ps, In p (stripped_nonblank ps) -> p <> []).
  { intros ps Hp. apply in_map_iff in Hp as (x & <- & Hx).
    apply filter_In in Hx as [_ Hx]. now apply truthy_true. }
  unfold split_to_paragraphs.
  destruct (length (stripped_nonblank (Re.split _PARAGRAPH_SEP_RE text)) <=? 1)%nat;
    apply H.
Qed.

Lemma sentence_infix text s : In s (split_to_sentences text) -> infix s text.
Proof.
  unfold split_to_sentences.
  set (cands := map Py.strip _).
  assert (H : In s cands -> infix s text).
  { unfold cands. intros Hs. apply in_map_iff in Hs as (x & <- & Hx).
    apply filter_In in Hx as [Hx _].
    eapply infix_trans; [apply strip_infix|].
    eapply Pieces_infix; [|exact Hx].
    apply split_Pieces, sentence_sep_matches. }
  destruct cands as [|c cs]; [|exact H].
  intros [<- | []]. apply strip_infix.
Qed.

(** ** The scoring loops *)

Section Scan.

Variable kws : list str.

(** The loop keeps its state or ends on the first segment that reaches
    the highest score. *)
Lemma scan_fold l : forall b s b' s',
  fold_left (scan_step kws) l (b, s) = (b', s') ->
  (b' = b /\ s' = s /\ Forall (fun x => score_of kws x <= s)%nat l)
  \/ exists l1 seg l2,
       l = l1 ++ seg :: l2 /\ b' = Some seg /\ s' = score_of kws seg
       /\ (s < s')%nat
       /\ Forall (fun x => score_of kws x < s')%nat l1
       /\ Forall (fun x => score_of kws x <= s')%nat l2.
Proof.
  induction l as [|x t IH]; intros b s b' s'; simpl.
  - intros [= <- <-]. left. repeat split. constructor.
  - unfold scan_step at 2. cbn [snd]. fold (score_of kws x).
    destruct (Nat.ltb_spec s (score_of kws x)) as [Hlt | Hge]; intros H;
      apply IH in H
        as [(-> & -> & Hall) | (l1 & seg & l2 & -> & -> & -> & Hs & H1 & H2)].
    + right. exists [], x, t. repeat split; auto.
    + right. exists (x :: l1), seg, l2.
      repeat split; auto; try lia; constructor; solve [lia | exact H1].
    + left. repeat split. constructor; [lia | exact Hall].
    + right. exists (x :: l1), seg, l2.
      repeat split; auto; try lia; constructor; solve [lia | exact H1].
Qed.

Lemma match_score_from kw_list t : forall n,
  fold_left
    (fun score kw =>
       if Py.truthy kw && Py.contains kw t then S score else score)
    kw_list n
  = (n + match_score t kw_list)%nat.
Proof.
  unfold match_score. induction kw_list as [|k ks IH]; intros n; simpl.
  - lia.
  - destruct (Py.truthy k && Py.contains k t).
    + rewrite (IH (S n)), (IH 1%nat). lia.
    + apply IH.
Qed.

(** A positive score means that some non-empty keyword occurs. *)
Lemma match_score_pos t kw_list :
  (0 < match_score t kw_list)%nat <->
  exists kw, In kw kw_list /\ kw <> [] /\ infix kw t.
Proof.
  induction kw_list as [|k ks IH].
  - simpl. split; [unfold match_score; simpl; lia | intros (kw & [] & _)].
  - unfold match_score. simpl. rewrite match_score_from.
    destruct (Py.truthy k && Py.contains k t) eqn:E.
    + split; [intros _ | lia]. apply andb_true_iff in E as [E1 E2].
      exists k. repeat split; [now left | now apply truthy_true
                              | now apply contains_spec].
    + simpl. rewrite IH. split.
      * intros (kw & H1 & H2 & H3). exists kw.
        split; [now right | now split].
      * intros (kw & [<- | H1] & H2 & H3); [|now exists kw].
        apply truthy_true in H2. apply contains_spec in H3.
        rewrite H2, H3 in E. discriminate.
Qed.

End Scan.

Lemma best_para_is_paragraph kws content best_para best_sent best_score :
  best_segments kws content = (Some best_para, best_sent, best_score) ->
  In best_para (split_to_paragraphs content).
Proof.
  unfold best_segments.
  destruct (fold_left (scan_step kws) (split_to_paragraphs content) (None, O))
    as [bp sc] eqn:E.
  apply scan_fold in E
    as [(-> & -> & _) | (l1 & seg & l2 & El & -> & -> & _)].
  - simpl.
    destruct (fold_left (scan_step kws) (split_to_sentences content) (None, O)).
    discriminate.
  - assert (Hin : In seg (split_to_paragraphs content))
      by (rewrite El; apply in_or_app; right; now left).
    destruct (score_of kws seg =? 0)%nat.
    + destruct (fold_left (scan_step kws) (split_to_sentences content)
                  (None, score_of kws seg)).
      now intros [= <- _ _].
    + now intros [= <- _ _].
Qed.

(** C10.  Every unit returned by [split_to_paragraphs] is a contiguous
    substring of the text it was cut from, and [best_para] is one of these
    units, so [content.index(best_para)] finds it: the lookup returns an
    index inside the text and never raises. *)
Theorem paragraph_index_never_raises kws content p :
  In p (split_to_paragraphs content)
  \/ (exists best_sent best_score,
        best_segments kws content = (Some p, best_sent, best_score)) ->
  In p (split_to_paragraphs content)
  /\ infix p content
  /\ exists idx, Py.index content p = Some idx
                 /\ (idx + length p <= length content)%nat.
Proof.
  intros H.
  assert (Hp : In p (split_to_paragraphs content)).
  { destruct H as [H | (bs & sc & H)]; [exact H|].
    now apply best_para_is_paragraph in H. }
  split; [exact Hp|]. destruct (paragraphs_cut content) as [Hsub _].
  specialize (Hsub p Hp). split; [exact Hsub|].
  destruct (index_total Hsub) as (idx & E). exists idx. split; [exact E|].
  apply index_sound in E as (t & Et & Hl).
  apply (f_equal (@length _)) in Et.
  rewrite !length_app, length_firstn in Et. lia.
Qed.



(** ** Keywords *)

Lemma mem_true t l : mem t l = true <-> In t l.
Proof. unfold mem. destruct (in_dec str_eq_dec t l); split; auto; discriminate. Qed.

Lemma mem_false t l : mem t l = false <-> ~ In t l.
Proof.
  unfold mem. destruct (in_dec str_eq_dec t l); split; auto; try discriminate.
  contradiction.
Qed.

Lemma emit_filter cur : filter Py.truthy [rev cur] = emit cur.
Proof.
  destruct cur as [|c cur]; [reflexivity|]. simpl.
  destruct (rev cur ++ [c]) eqn:E; [|reflexivity].
  now apply app_eq_nil in E as [_ E].
Qed.

Lemma split_tokens_from s : forall prev skip cur,
  (skip <= Re.run is_separator s)%nat -> skip = O \/ cur = [] ->
  filter Py.truthy (Re.split_from (Re.plus is_separator) prev skip cur s)
  = tokens_of cur s.
Proof.
  induction s as [|c t IH]; intros prev skip cur Hle Hor.
  - simpl in *. apply emit_filter.
  - cbn [Re.split_from tokens_of]. cbn [Re.run] in Hle.
    destruct skip as [|k].
    + unfold Re.plus at 1. cbn [Re.run].
      destruct (is_separator c) eqn:Ec.
      * match goal with
        | |- filter _ (?a :: ?l) = _ => change (a :: l) with ([a] ++ l)
        end.
        rewrite filter_app, emit_filter. f_equal. apply IH; auto.
      * apply IH; [lia | now left].
    + destruct Hor as [Hor | ->]; [discriminate|].
      destruct (is_separator c); [|lia]. simpl. apply IH; [lia | now right].
Qed.

Lemma split_tokens s :
  filter Py.truthy (Re.split (Re.plus is_separator) s) = tokens_of [] s.
Proof. apply split_tokens_from; [lia | now left]. Qed.

Lemma tokens_solid s : forall cur,
  Forall (fun c => is_separator c = false) cur ->
  Forall (fun t => word is_separator t) (tokens_of cur s).
Proof.
  assert (Hemit : forall cur, Forall (fun c => is_separator c = false) cur ->
            Forall (fun t => word is_separator t) (emit cur)).
  { intros [|c cur] H; simpl; constructor; [|constructor]. split.
    - intros E. now apply app_eq_nil in E as [_ E].
    - apply Forall_app. split; [apply Forall_rev|]; inversion H; auto. }
  induction s as [|c t IH]; intros cur Hcur; cbn [tokens_of].
  - now apply Hemit.
  - destruct (is_separator c) eqn:Ec.
    + apply Forall_app. split; [now apply Hemit | apply IH; constructor].
    + apply IH. now constructor.
Qed.

Lemma dedup_first_In l x : In x (dedup_first l) <-> In x l.
Proof.
  induction l as [|y t IH]; simpl; [tauto|].
  rewrite filter_In, IH. destruct (str_eq_dec x y) as [-> | Hn].
  - tauto.
  - split; [tauto|]. intros [-> | H]; [congruence | right; now split].
Qed.

Lemma dedup_first_NoDup l : NoDup (dedup_first l).
Proof.
  induction l as [|y t IH]; simpl; constructor.
  - rewrite filter_In. intros [_ H]. now destruct (str_eq_dec y y).
  - now apply NoDup_filter.
Qed.

Lemma filter_seen_drop seen x (l : list str) :
  mem x seen = true ->
  filter (fun y => negb (mem y seen))
    (filter (fun y => if str_eq_dec y x then false else true) l)
  = filter (fun y => negb (mem y seen)) l.
Proof.
  intros Ex. induction l as [|y u IHu]; simpl; auto.
  destruct (str_eq_dec y x) as [-> | Hn]; simpl.
  - rewrite Ex. simpl. exact IHu.
  - destruct (mem y seen); simpl; now rewrite IHu.
Qed.

Lemma filter_seen_cons seen x (l : list str) :
  filter (fun y => negb (mem y (x :: seen))) l
  = filter (fun y => negb (mem y seen))
      (filter (fun y => if str_eq_dec y x then false else true) l).
Proof.
  induction l as [|y u IHu]; simpl; auto.
  unfold mem at 1. destruct (in_dec str_eq_dec y (x :: seen)) as [Hin | Hn].
  - destruct (str_eq_dec y x) as [-> | Hyx]; simpl; [exact IHu|].
    destruct Hin as [-> | Hin]; [congruence|].
    apply mem_true in Hin. rewrite Hin. simpl. exact IHu.
  - destruct (str_eq_dec y x) as [-> | Hyx]; [exfalso; apply Hn; now left|].
    simpl. assert (E : mem y seen = false)
      by (apply mem_false; intros H; apply Hn; now right).
    rewrite E. simpl. now rewrite IHu.
Qed.

(** The loop over [kws] computes [dedup_first]. *)
Lemma dedup_loop l : forall seen result,
  snd (fold_left dedup_step l (seen, result))
  = result ++ filter (fun y => negb (mem y seen)) (dedup_first l).
Proof.
  induction l as [|x t IH]; intros seen result; simpl.
  - now rewrite app_nil_r.
  - destruct (mem x seen) eqn:Ex; simpl.
    + rewrite IH. f_equal. symmetry. now apply filter_seen_drop.
    + rewrite IH, <- app_assoc. simpl. do 2 f_equal. apply filter_seen_cons.
Qed.

Lemma keywords_pipeline_eq query min_len :
  (1 <= min_len)%nat ->
  keywords_from_query query (Z.of_nat min_len) = keywords_pipeline query min_len.
Proof.
  intros Hmin. unfold keywords_from_query, keywords_pipeline.
  rewrite dedup_loop. simpl.
  rewrite <- split_tokens.
  set (toks := Re.split _ _).
  assert (E : forall l : list str,
             filter (fun y => negb (mem y [])) l = l).
  { induction l as [|y u IHu]; simpl; [reflexivity | f_equal; exact IHu]. }
  rewrite E. f_equal.
  induction toks as [|t u IHu]; simpl; [reflexivity|].
  destruct t as [|c t]; simpl.
  - exact IHu.
  - replace (Z.of_nat min_len <=? Z.pos (Pos.of_succ_nat (length t)))%Z
      with (min_len <=? S (length t))%nat.
    + destruct (min_len <=? S (length t))%nat; simpl; [|exact IHu].
      destruct (negb (mem (c :: t) _HE_STOPWORDS)); simpl; now rewrite IHu.
    + destruct (Nat.leb_spec min_len (S (length t)));
        symmetry; [apply Z.leb_le | apply Z.leb_gt]; lia.
Qed.

(** Every keyword is a non-empty token without a separator character. *)
Lemma keywords_solid query min_len kw :
  In kw (keywords_from_query query min_len) -> word is_separator kw.
Proof.
  unfold keywords_from_query. rewrite dedup_loop. simpl.
  rewrite filter_In, dedup_first_In, filter_In.
  intros [[Hin Hf] _]. apply andb_true_iff in Hf as [Hf _].
  apply andb_true_iff in Hf as [Hf _].
  assert (Hin' : In kw (filter Py.truthy (Re.split (Re.plus is_separator)
                                            (normalize_hebrew query))))
    by (apply filter_In; now split).
  rewrite split_tokens in Hin'.
  pose proof (@tokens_solid (normalize_hebrew query) [] (Forall_nil _)) as H.
  rewrite Forall_forall in H. now apply H.
Qed.

(** C7.  [keywords_from_query(q, min_len=2)] is the documented pipeline: the
    tokens of the normalized query, without the tokens shorter than two
    characters and without the stop-words, each kept once at its first
    occurrence; so it has no duplicate, no stop-word and no short token, and
    on the query gimel-yod-lamed twice then bet-dalet-yod-qof-he it yields
    these two words in this order. *)
Theorem keywords_from_query_pipeline query :
  keywords_from_query query 2 = keywords_pipeline query 2
  /\ NoDup (keywords_from_query query 2)
  /\ Forall (fun t => (2 <= length t)%nat /\ ~ In t _HE_STOPWORDS
                      /\ In t (tokens_of [] (normalize_hebrew query)))
       (keywords_from_query query 2)
  /\ keywords_from_query
       [0x5D2; 0x5D9; 0x5DC; 0x20; 0x5D2; 0x5D9; 0x5DC; 0x20;
        0x5D1; 0x5D3; 0x5D9; 0x5E7; 0x5D4]%N 2
     = [[0x5D2; 0x5D9; 0x5DC]%N; [0x5D1; 0x5D3; 0x5D9; 0x5E7; 0x5D4]%N].
Proof.
  pose proof (@keywords_pipeline_eq query 2 ltac:(lia)) as E.
  change (Z.of_nat 2) with 2%Z in E. rewrite E.
  split; [reflexivity|]. split; [apply dedup_first_NoDup|].
  split; [|vm_compute; reflexivity].
  apply Forall_forall. intros t Ht. unfold keywords_pipeline in Ht.
  rewrite dedup_first_In, filter_In, filter_In in Ht.
  destruct Ht as [[Hin Hlen] Hstop].
  apply Nat.leb_le in Hlen. apply negb_true_iff, mem_false in Hstop. tauto.
Qed.

(** ** Normalization *)

Lemma sub_niqqud s : forall prev,
  Re.sub_from _NIQQUD_RE [] prev O s
  = filter (fun c => negb (is_niqqud c)) s.
Proof.
  induction s as [|c t IH]; intros prev; [reflexivity|].
  cbn [Re.sub_from _NIQQUD_RE filter].
  destruct (is_niqqud c); cbn [negb]; rewrite IH; reflexivity.
Qed.

Lemma Pieces_impl (P Q : str -> Prop) ps t :
  (forall sep, P sep -> Q sep) -> Pieces P ps t -> Pieces Q ps t.
Proof. intros H. induction 1; constructor; auto. Qed.

Lemma is_blank_space c : is_blank c = true -> Py.isspace c = true.
Proof. class_arith. Qed.

Lemma is_niqqud_solid c : is_niqqud c = true -> Py.isspace c = false.
Proof.
  intros H. destruct (Py.isspace c) eqn:E; [|reflexivity]. exfalso.
  revert H E. class_arith.
Qed.

Lemma is_separator_space c : is_separator c = false -> Py.isspace c = false.
Proof.
  unfold is_separator. intros H. destruct (Py.isspace c); [|reflexivity].
  simpl in H. discriminate.
Qed.

(** A solid word occurs in the text with collapsed blanks exactly when it
    occurs in the text. *)
Lemma collapse_solid kw s :
  solid kw ->
  infix kw (Re.sub (Re.plus is_blank) [0x20%N] s) <-> infix kw s.
Proof.
  intros Hkw.
  pose proof (@plus_matches is_blank is_blank_space) as Hm.
  pose proof (split_Pieces Hm s) as H1.
  pose proof (sub_Pieces [0x20%N] Hm s) as H2.
  apply Pieces_impl with (Q := blank_sep) in H2.
  2:{ intros sep <-. split; [now repeat constructor | discriminate]. }
  apply Pieces_cuts in H1 as [A1 B1]. apply Pieces_cuts in H2 as [A2 B2].
  split; intros H.
  - destruct (B2 kw Hkw H) as (p & Hp & Hkp).
    eapply infix_trans; [exact Hkp | now apply A1].
  - destruct (B1 kw Hkw H) as (p & Hp & Hkp).
    eapply infix_trans; [exact Hkp | now apply A2].
Qed.

Lemma normalize_solid kw seg :
  solid kw ->
  infix kw (normalize_hebrew seg)
  <-> infix kw (filter (fun c => negb (is_niqqud c)) seg).
Proof.
  intros Hkw. unfold normalize_hebrew.
  unfold Re.sub at 2. rewrite sub_niqqud.
  split; intros H.
  - apply (proj1 (collapse_solid _ Hkw)).
    eapply infix_trans; [exact H | apply strip_infix].
  - apply solid_in_strip; [exact Hkw|].
    now apply (proj2 (collapse_solid _ Hkw)).
Qed.

Lemma filter_app_inv (f : char -> bool) s : forall a b,
  filter f s = a ++ b ->
  exists s1 s2, s = s1 ++ s2 /\ filter f s1 = a /\ filter f s2 = b.
Proof.
  induction s as [|c t IH]; intros a b H.
  - simpl in H. symmetry in H. apply app_eq_nil in H as [-> ->].
    now exists [], [].
  - simpl in H. destruct (f c) eqn:E.
    + destruct a as [|x a].
      * exists [], (c :: t). simpl. rewrite E. auto.
      * injection H as <- H. destruct (IH _ _ H) as (s1 & s2 & -> & <- & <-).
        exists (c :: s1), s2. simpl. rewrite E. auto.
    + destruct (IH _ _ H) as (s1 & s2 & -> & <- & <-).
      exists (c :: s1), s2. simpl. rewrite E. auto.
Qed.

Lemma filter_infix_inv (f : char -> bool) k s :
  infix k (filter f s) -> exists m, infix m s /\ filter f m = k.
Proof.
  intros (p & q & H).
  apply filter_app_inv in H as (s1 & s2 & -> & _ & H).
  apply filter_app_inv in H as (m & s3 & -> & <- & _).
  exists m. split; [now exists s1, s3 | reflexivity].
Qed.

(** A solid keyword found in a sentence of the text is found in one of its
    paragraphs. *)
Lemma sentence_hit_in_paragraph kw content sent :
  solid kw -> In sent (split_to_sentences content) ->
  infix kw (normalize_hebrew sent) ->
  exists para, In para (split_to_paragraphs content)
               /\ infix kw (normalize_hebrew para).
Proof.
  intros Hkw Hsent H. apply (normalize_solid _ Hkw) in H.
  apply filter_infix_inv in H as (m & Hm & Em).
  assert (Hsolid : solid m).
  { destruct Hkw as [Hne Hall]. split.
    - intros ->. simpl in Em. congruence.
    - apply Forall_forall. intros c Hc.
      destruct (is_niqqud c) eqn:En; [now apply is_niqqud_solid|].
      rewrite Forall_forall in Hall. apply Hall. rewrite <- Em.
      apply filter_In. split; [exact Hc | now rewrite En]. }
  destruct (paragraphs_cut content) as [_ Hcov].
  destruct (Hcov m Hsolid) as (para & Hp & Hmp).
  { eapply infix_trans; [exact Hm | now apply sentence_infix]. }
  exists para. split; [exact Hp|]. apply (normalize_solid _ Hkw).
  rewrite <- Em. now apply infix_filter.
Qed.

Lemma keywords_space_free query min_len kw :
  In kw (keywords_from_query query min_len) -> solid kw.
Proof.
  intros H. apply keywords_solid in H as [Hne Hall]. split; [exact Hne|].
  eapply Forall_impl; [|exact Hall]. apply is_separator_space.
Qed.

(** ** The chosen segment *)

Lemma best_segments_cases kws content :
  (exists seg, first_best kws (split_to_paragraphs content) seg
               /\ (0 < score_of kws seg)%nat
               /\ best_segments kws content
                  = (Some seg, None, score_of kws seg))
  \/ (no_hit kws (split_to_paragraphs content)
      /\ exists seg, first_best kws (split_to_sentences content) seg
                     /\ (0 < score_of kws seg)%nat
                     /\ best_segments kws content
                        = (None, Some seg, score_of kws seg))
  \/ (no_hit kws (split_to_paragraphs content)
      /\ no_hit kws (split_to_sentences content)
      /\ best_segments kws content = (None, None, O)).
Proof.
  unfold best_segments.
  destruct (fold_left (scan_step kws) (split_to_paragraphs content) (None, O))
    as [bp sc] eqn:E.
  apply scan_fold in E
    as [(-> & -> & Hall) | (l1 & seg & l2 & El & -> & -> & Hpos & H1 & H2)].
  - right. simpl.
    destruct (fold_left (scan_step kws) (split_to_sentences content) (None, O))
      as [bs sc] eqn:E.
    apply scan_fold in E
      as [(-> & -> & Hall') | (l1 & seg & l2 & El & -> & -> & Hpos & H1 & H2)].
    + right. auto.
    + left. split; [exact Hall|]. exists seg. split; [now exists l1, l2 | auto].
  - left. exists seg. split; [now exists l1, l2|]. split; [exact Hpos|].
    destruct (Nat.eqb_spec (score_of kws seg) 0); [lia | reflexivity].
Qed.

(** When the keywords are solid the sentence pass finds nothing the
    paragraph pass missed. *)
Lemma no_hit_sentences kws content :
  Forall (fun kw => solid kw) kws ->
  no_hit kws (split_to_paragraphs content) ->
  no_hit kws (split_to_sentences content).
Proof.
  intros Hk Hp. apply Forall_forall. intros sent Hs.
  destruct (Nat.eq_dec (score_of kws sent) 0) as [-> | Hn]; [lia|].
  exfalso. assert (Hpos : (0 < score_of kws sent)%nat) by lia.
  apply match_score_pos in Hpos as (kw & Hkw & _ & Hin).
  rewrite Forall_forall in Hk.
  destruct (@sentence_hit_in_paragraph kw content sent (Hk kw Hkw) Hs Hin)
    as (para & Hpa & Hi).
  unfold no_hit in Hp. rewrite Forall_forall in Hp. specialize (Hp para Hpa).
  assert ((0 < score_of kws para)%nat).
  { apply match_score_pos. exists kw. repeat split; auto. apply (Hk kw Hkw). }
  lia.
Qed.

Lemma score_of_nil seg : score_of [] seg = O.
Proof. reflexivity. Qed.

Lemma first_best_In kws segs seg : first_best kws segs seg -> In seg segs.
Proof. intros (l1 & l2 & -> & _). apply in_or_app. right. now left. Qed.

(** For the keywords of a query the chosen segment is the first best
    paragraph, or there is none. *)
Lemma raw_snippet_cases query min_len content :
  let kws := keywords_from_query query min_len in
  (exists seg, first_best kws (split_to_paragraphs content) seg
               /\ (0 < score_of kws seg)%nat
               /\ best_segments kws content
                  = (Some seg, None, score_of kws seg)
               /\ raw_snippet kws content = Some seg)
  \/ (no_hit kws (split_to_paragraphs content)
      /\ no_hit kws (split_to_sentences content)
      /\ best_segments kws content = (None, None, O)
      /\ raw_snippet kws content = None).
Proof.
  intros kws.
  assert (Hk : Forall (fun kw => solid kw) kws).
  { apply Forall_forall. intros kw. apply keywords_space_free. }
  unfold raw_snippet.
  destruct (best_segments_cases kws content)
    as [(seg & Hf & Hpos & E) | [(Hp & seg & Hf & Hpos & E) | (Hp & Hs & E)]].
  - left. exists seg. rewrite E. repeat split; auto.
    destruct (Nat.eqb_spec (score_of kws seg) 0); [lia | reflexivity].
  - exfalso. apply (@no_hit_sentences kws content Hk) in Hp.
    unfold no_hit in Hp. rewrite Forall_forall in Hp.
    specialize (Hp seg (@first_best_In _ _ _ Hf)). lia.
  - right. rewrite E. auto.
Qed.

(** ** The snippet of one document and the batches of [retrieve] *)

Lemma slice_to_firstn {A} (l : list A) (m : Z) :
  (0 <= m)%Z -> Py.slice_to l m = firstn (Z.to_nat m) l.
Proof.
  intros Hm. unfold Py.slice_to, Py.slice, Py.clip.
  change (0 <? 0)%Z with false. cbv iota.
  destruct (Z.ltb_spec m 0); [lia|].
  rewrite (Z.min_l 0) by lia. simpl skipn. rewrite Z.sub_0_r.
  destruct (Z.le_ge_cases m (Z.of_nat (length l))).
  - now rewrite Z.min_l by lia.
  - rewrite Z.min_r by lia. rewrite Nat2Z.id.
    rewrite firstn_all, firstn_all2 by lia. reflexivity.
Qed.

Lemma slice_In {A} (l : list A) lo hi x : In x (Py.slice l lo hi) -> In x l.
Proof.
  unfold Py.slice. intros H.
  match type of H with
  | In x (firstn ?n (skipn ?a l)) =>
      rewrite <- (firstn_skipn a l); apply in_or_app; right;
      rewrite <- (firstn_skipn n (skipn a l)); apply in_or_app; now left
  end.
Qed.

Section Facts.

Variable uni_decimal : char -> bool.
Variable uni_word : char -> bool.

Lemma best_snippet_eq q d maxc :
  best_snippet_for_query_in_doc uni_decimal uni_word q d maxc
  = option_map
      (fun raw => (shorten raw maxc, section_lookup uni_decimal uni_word (content d) raw))
      (raw_snippet (keywords_from_query q 2) (content d)).
Proof.
  unfold best_snippet_for_query_in_doc.
  destruct (raw_snippet_cases q 2 (content d))
    as [(seg & Hf & Hpos & E & Er) | (Hp & Hs & E & Er)];
    cbv zeta in *; rewrite Er; simpl option_map.
  - destruct (keywords_from_query q 2) as [|k ks] eqn:Ek.
    { rewrite score_of_nil in Hpos. lia. }
    rewrite E.
    destruct (Nat.eqb_spec (score_of (k :: ks) seg) 0) as [H0 | _]; [lia|].
    pose proof (@paragraph_nonempty _ _ (first_best_In Hf)) as Hne.
    destruct seg as [|c seg]; [congruence|].
    unfold section_lookup.
    destruct (extract_section_ref uni_decimal uni_word (c :: seg));
      [reflexivity|].
    destruct (Py.index (content d) (c :: seg)); reflexivity.
  - destruct (keywords_from_query q 2) as [|k ks]; [reflexivity|].
    rewrite E. reflexivity.
Qed.

Lemma collect_fold q docs : forall acc,
  fold_left (collect uni_decimal uni_word q) docs acc
  = acc ++ candidates_of uni_decimal uni_word docs q.
Proof.
  induction docs as [|d ds IH]; intros acc; simpl.
  - now rewrite app_nil_r.
  - rewrite IH. unfold collect, to_candidate.
    destruct (best_snippet_for_query_in_doc uni_decimal uni_word q d 700)
      as [[s r]|]; [now rewrite <- app_assoc | reflexivity].
Qed.

Lemma emit_fold (cs : list (str * str * option str)) : forall results,
  fold_left
    (fun results c =>
       let '(doc_id, snippet, section_ref) := c in
       results ++ [mkSection doc_id snippet section_ref])
    cs results
  = results ++ map to_section cs.
Proof.
  induction cs as [|[[i s] r] cs IH]; intros results; simpl.
  - now rewrite app_nil_r.
  - rewrite IH, <- app_assoc. reflexivity.
Qed.

Lemma retrieve_step_eq docs m results q :
  retrieve_step uni_decimal uni_word docs m results q
  = results ++ batch uni_decimal uni_word docs m q.
Proof.
  unfold retrieve_step, batch. rewrite collect_fold. simpl.
  destruct (candidates_of uni_decimal uni_word docs q) as [|c cs]; [reflexivity|].
  apply emit_fold.
Qed.

Lemma retrieve_fold docs m queries : forall results,
  fold_left (retrieve_step uni_decimal uni_word docs m) queries results
  = results ++ flat_map (batch uni_decimal uni_word docs m) queries.
Proof.
  induction queries as [|q qs IH]; intros results; simpl.
  - now rewrite app_nil_r.
  - rewrite IH, retrieve_step_eq, <- app_assoc. reflexivity.
Qed.

Lemma retrieve_eq input_data m :
  retrieve uni_decimal uni_word input_data m
  = flat_map (batch uni_decimal uni_word (criteria_documents input_data) m)
      (criteria_queries input_data).
Proof. unfold retrieve. now rewrite retrieve_fold. Qed.

End Facts.

Lemma first_best_max kws segs seg :
  first_best kws segs seg ->
  list_max (map (score_of kws) segs) = score_of kws seg.
Proof.
  intros (l1 & l2 & -> & H1 & H2).
  rewrite map_app, list_max_app. simpl.
  assert (A : (list_max (map (score_of kws) l1) <= score_of kws seg)%nat).
  { apply list_max_le, Forall_map. eapply Forall_impl; [|exact H1].
    simpl. intros. lia. }
  assert (B : (list_max (map (score_of kws) l2) <= score_of kws seg)%nat).
  { apply list_max_le, Forall_map. exact H2. }
  lia.
Qed.

Lemma no_hit_max kws segs :
  no_hit kws segs -> list_max (map (score_of kws) segs) = O.
Proof.
  intros H. apply Nat.le_0_r, list_max_le, Forall_map. exact H.
Qed.

Section Claims.

Variable uni_decimal : char -> bool.
Variable uni_word : char -> bool.

(** C6.  [best_snippet_for_query_in_doc] scores the paragraphs and turns to
    the sentences only when the best paragraph score is 0; it returns a
    candidate exactly when the best score is positive, and the candidate is
    cut from the first segment, in document order, that reaches the best
    score. *)
Theorem best_snippet_first_wins q d maxc :
  let kws := keywords_from_query q 2 in
  let paragraphs := split_to_paragraphs (content d) in
  let sentences := split_to_sentences (content d) in
  let segs :=
    if (list_max (map (score_of kws) paragraphs) =? 0)%nat then sentences
    else paragraphs in
  let best := list_max (map (score_of kws) segs) in
  match best_snippet_for_query_in_doc uni_decimal uni_word q d maxc with
  | Some (snippet, _) =>
      (0 < best)%nat
      /\ exists seg, first_best kws segs seg
                     /\ score_of kws seg = best
                     /\ snippet = shorten seg maxc
  | None => best = O
  end.
Proof.
  cbv zeta. rewrite best_snippet_eq.
  destruct (raw_snippet_cases q 2 (content d))
    as [(seg & Hf & Hpos & _ & Er) | (Hp & Hs & _ & Er)];
    cbv zeta in *; rewrite Er; simpl option_map.
  - pose proof (first_best_max Hf) as Hm. rewrite Hm.
    destruct (Nat.eqb_spec (score_of (keywords_from_query q 2) seg) 0)
      as [H0 | _]; [lia|].
    rewrite Hm. split; [exact Hpos|]. exists seg. auto.
  - rewrite (no_hit_max Hp). simpl. apply no_hit_max, Hs.
Qed.

End Claims.

(** ** Shortening *)

Lemma rstrip_decomp s :
  exists trail, s = Py.rstrip s ++ trail /\ blank_only trail.
Proof.
  unfold Py.rstrip.
  destruct (dropwhile_decomp Py.isspace (rev s)) as (lead & E & H).
  exists (rev lead). split; [|now apply Forall_rev].
  rewrite <- rev_app_distr, <- E. now rewrite rev_involutive.
Qed.

Lemma rstrip_length s : (length (Py.rstrip s) <= length s)%nat.
Proof.
  destruct (rstrip_decomp s) as (trail & E & _).
  rewrite E at 2. rewrite length_app. lia.
Qed.

Lemma rstrip_nonempty s c :
  In c s -> Py.isspace c = false -> Py.rstrip s <> [].
Proof.
  intros Hin Hc E. destruct (rstrip_decomp s) as (trail & Es & Ht).
  rewrite E in Es. simpl in Es. subst trail.
  unfold sep_only in Ht. rewrite Forall_forall in Ht.
  specialize (Ht c Hin). congruence.
Qed.

Lemma rstrip_solid_end s :
  s <> [] -> Py.isspace (last s 0%N) = false -> Py.rstrip s = s.
Proof.
  intros Hne Hl. unfold Py.rstrip.
  rewrite (app_removelast_last 0%N Hne) at 1.
  rewrite rev_app_distr. simpl. rewrite Hl. simpl.
  rewrite rev_involutive. symmetry. now apply app_removelast_last.
Qed.

Lemma paragraph_strip_nonempty content p :
  In p (split_to_paragraphs content) -> Py.strip p <> [].
Proof.
  intros Hp. pose proof (@paragraph_nonempty _ _ Hp) as Hne.
  assert (H : exists x, p = Py.strip x).
  { revert Hp. unfold split_to_paragraphs, stripped_nonblank.
    destruct (length _ <=? 1)%nat; intros Hp;
      apply in_map_iff in Hp as (x & <- & _); now exists x. }
  destruct H as (x & E). destruct p as [|c t]; [congruence|].
  symmetry in E. apply strip_head in E.
  apply (@strip_nonempty (c :: t) c); [now left | exact E].
Qed.

(** The text kept for a snippet: the trimmed segment, or its first
    [max_snippet_chars] characters without trailing white space, followed by
    the ellipsis. *)
Lemma shorten_shape raw :
  Py.strip raw <> [] ->
  let snippet := Py.strip raw in
  ((length snippet <= 700)%nat /\ shorten raw 700 = snippet)
  \/ ((700 < length snippet)%nat
      /\ shorten raw 700 = Py.rstrip (firstn 700 snippet) ++ ellipsis
      /\ (2 <= length (shorten raw 700) <= 701)%nat
      /\ (length (shorten raw 700) = 701%nat
          \/ Py.isspace (last (firstn 700 snippet) 0%N) = true)).
Proof.
  intros Hne snippet. unfold shorten. fold snippet.
  destruct (Z.ltb_spec 700 (Z.of_nat (length snippet))) as [Hlt | Hge].
  - right. split; [lia|]. rewrite slice_to_firstn by lia.
    change (Z.to_nat 700) with 700%nat. split; [reflexivity|].
    rewrite length_app. change (length ellipsis) with 1%nat.
    pose proof (rstrip_length (firstn 700 snippet)) as Hl.
    rewrite length_firstn in Hl.
    assert (Hpos : Py.rstrip (firstn 700 snippet) <> []).
    { subst snippet. destruct (Py.strip raw) as [|c t] eqn:E; [congruence|].
      apply (@rstrip_nonempty _ c); [now left | now apply strip_head in E]. }
    assert (Hl1 : (1 <= length (Py.rstrip (firstn 700 snippet)))%nat).
    { destruct (Py.rstrip (firstn 700 snippet)); [congruence | simpl; lia]. }
    split; [lia|].
    destruct (Py.isspace (last (firstn 700 snippet) 0%N)) eqn:El;
      [now right | left].
    rewrite rstrip_solid_end; auto.
    + rewrite length_firstn. lia.
    + intros E. apply (f_equal (@length _)) in E.
      rewrite length_firstn in E. cbn [length] in E. lia.
  - left. split; [lia | reflexivity].
Qed.

Lemma shorten_nonempty raw maxc : Py.strip raw <> [] -> shorten raw maxc <> [].
Proof.
  intros H. unfold shorten. destruct (_ <? _)%Z; [|exact H].
  intros E. apply app_eq_nil in E as [_ E]. discriminate.
Qed.

(** ** The output of [retrieve] *)

Section Output.

Variable uni_decimal : char -> bool.
Variable uni_word : char -> bool.

(** A record of a batch is the sentinel, or it comes from the chosen
    paragraph of a document. *)
Lemma batch_In docs m q r :
  In r (batch uni_decimal uni_word docs m q) ->
  r = not_found
  \/ exists d seg,
       In d docs
       /\ raw_snippet (keywords_from_query q 2) (content d) = Some seg
       /\ In seg (split_to_paragraphs (content d))
       /\ r = mkSection (id d) (shorten seg 700)
                (section_lookup uni_decimal uni_word (content d) seg).
Proof.
  unfold batch.
  destruct (candidates_of uni_decimal uni_word docs q) as [|c cs] eqn:E.
  { intros [<- | []]. now left. }
  intros H. right. apply in_map_iff in H as (x & <- & Hx).
  apply slice_In in Hx. rewrite <- E in Hx. unfold candidates_of in Hx.
  apply in_flat_map in Hx as (d & Hd & Hx). unfold to_candidate in Hx.
  rewrite best_snippet_eq in Hx.
  destruct (raw_snippet_cases q 2 (content d))
    as [(seg & Hf & _ & _ & Er) | (_ & _ & _ & Er)];
    cbv zeta in *; rewrite Er in Hx; simpl in Hx; [|contradiction].
  destruct Hx as [<- | []]. exists d, seg.
  repeat split; auto. now apply first_best_In in Hf.
Qed.

(** C3, amended.  The text of a record cut from a segment is the trimmed
    segment when that has at most 700 characters; otherwise it is the first
    700 characters of the trimmed segment, without their trailing white
    space, followed by the ellipsis: it has between 2 and 701 characters,
    and exactly 701 unless the last of the 700 characters is white space. *)
Theorem truncated_text_shape input_data m r :
  In r (retrieve uni_decimal uni_word input_data m) ->
  r = not_found
  \/ exists q d seg,
       In q (criteria_queries input_data)
       /\ In d (criteria_documents input_data)
       /\ raw_snippet (keywords_from_query q 2) (content d) = Some seg
       /\ source_id r = id d
       /\ (((length (Py.strip seg) <= 700)%nat /\ text r = Py.strip seg)
           \/ ((700 < length (Py.strip seg))%nat
               /\ text r = Py.rstrip (firstn 700 (Py.strip seg)) ++ ellipsis
               /\ (2 <= length (text r) <= 701)%nat
               /\ (length (text r) = 701%nat
                   \/ Py.isspace (last (firstn 700 (Py.strip seg)) 0%N)
                      = true))).
Proof.
  intros Hr. rewrite retrieve_eq in Hr.
  apply in_flat_map in Hr as (q & Hq & Hr).
  apply batch_In in Hr as [-> | (d & seg & Hd & Hraw & Hseg & ->)];
    [now left | right].
  exists q, d, seg. cbn [source_id text]. repeat split; auto.
  apply shorten_shape. eapply paragraph_strip_nonempty; eauto.
Qed.

End Output.

Section Batches.

Variable uni_decimal : char -> bool.
Variable uni_word : char -> bool.

Lemma candidates_length docs q :
  length (candidates_of uni_decimal uni_word docs q)
  = length (filter (matches uni_decimal uni_word q) docs).
Proof.
  unfold candidates_of. induction docs as [|d ds IH]; [reflexivity|].
  cbn [flat_map filter]. rewrite length_app, IH.
  unfold to_candidate, matches.
  destruct (best_snippet_for_query_in_doc uni_decimal uni_word q d 700)
    as [[s r]|]; reflexivity.
Qed.

Lemma batch_length docs m q :
  (1 <= m)%Z ->
  let n := length (filter (matches uni_decimal uni_word q) docs) in
  (n = O /\ batch uni_decimal uni_word docs m q = [not_found])
  \/ ((0 < n)%nat
      /\ batch uni_decimal uni_word docs m q
         = map to_section
             (firstn (Z.to_nat m) (candidates_of uni_decimal uni_word docs q))
      /\ length (batch uni_decimal uni_word docs m q)
         = Nat.min (Z.to_nat m) n).
Proof.
  intros Hm n. subst n. rewrite <- candidates_length. unfold batch.
  destruct (candidates_of uni_decimal uni_word docs q) as [|c cs] eqn:E.
  - left. split; reflexivity.
  - right. rewrite slice_to_firstn by lia.
    split; [simpl; lia|]. split; [reflexivity|].
    now rewrite length_map, length_firstn.
Qed.

Lemma flat_map_constant_length {A B} (f : A -> list B) k l :
  (forall x, In x l -> length (f x) = k) ->
  length (flat_map f l) = (length l * k)%nat.
Proof.
  induction l as [|x l IH]; intros H; [reflexivity|].
  cbn [flat_map length]. rewrite length_app, (H x) by now left.
  rewrite IH; [lia|]. intros y Hy. apply H. now right.
Qed.

Lemma flat_map_nil {A B} (f : A -> list B) l :
  (forall x, In x l -> f x = []) -> flat_map f l = [].
Proof.
  induction l as [|x l IH]; intros H; [reflexivity|].
  cbn [flat_map]. rewrite (H x) by now left.
  apply IH. intros y Hy. apply H. now right.
Qed.

(** C1, amended.  [retrieve] returns the batches of the queries, in query
    order.  The batch of a query that matches uni_decimal uni_word in no document is the one
    sentinel record; otherwise it is made of the first [max_per_query]
    candidates, one candidate per matching document in document order, so
    its length is the smaller of [max_per_query] and the number of matching
    documents.  When every query matches uni_decimal uni_word in every document the output has
    [len(queries) * min(max_per_query, len(documents))] records. *)
Theorem retrieve_batches input_data m :
  valid_input input_data -> (1 <= m)%Z ->
  let docs := criteria_documents input_data in
  let queries := criteria_queries input_data in
  retrieve uni_decimal uni_word input_data m
  = flat_map (batch uni_decimal uni_word docs m) queries
  /\ (forall q,
        let n := length (filter (matches uni_decimal uni_word q) docs) in
        (n = O /\ batch uni_decimal uni_word docs m q = [not_found])
        \/ ((0 < n)%nat
            /\ batch uni_decimal uni_word docs m q
               = map to_section
                   (firstn (Z.to_nat m)
                      (candidates_of uni_decimal uni_word docs q))
            /\ length (batch uni_decimal uni_word docs m q)
               = Nat.min (Z.to_nat m) n))
  /\ ((forall q d, In q queries -> In d docs -> matches uni_decimal uni_word q d = true) ->
      length (retrieve uni_decimal uni_word input_data m)
      = (length queries * Nat.min (Z.to_nat m) (length docs))%nat).
Proof.
  intros (_ & _ & Hdocs & _) Hm. cbv zeta.
  destruct input_data as [queries docs]. cbn [criteria_queries criteria_documents] in *.
  split; [apply retrieve_eq|]. split; [intros q; now apply batch_length|].
  intros Hall. rewrite retrieve_eq. cbn [criteria_queries criteria_documents].
  apply flat_map_constant_length. intros q Hq.
  assert (E : filter (matches uni_decimal uni_word q) docs = docs).
  { apply forallb_filter_id, forallb_forall. intros d Hd. now apply Hall. }
  destruct (@batch_length docs m q Hm) as [[H0 _] | (_ & _ & Hl)];
    rewrite E in *.
  - destruct docs; [contradiction | discriminate].
  - exact Hl.
Qed.

(** C2.  A query whose keyword list is empty, or none of whose keywords
    occurs in a normalized paragraph or sentence of any document,
    contributes exactly one record, the sentinel: source [N/A], the fixed
    Hebrew text, no section label. *)
Theorem unmatched_query_sentinel docs m qs1 q qs2 :
  valid_input (mkInput (qs1 ++ q :: qs2) docs) ->
  (keywords_from_query q 2 = []
   \/ forall d seg kw,
        In d docs ->
        In seg (split_to_paragraphs (content d))
        \/ In seg (split_to_sentences (content d)) ->
        In kw (keywords_from_query q 2) ->
        Py.contains kw (normalize_hebrew seg) = false) ->
  retrieve uni_decimal uni_word (mkInput (qs1 ++ q :: qs2) docs) m
  = retrieve uni_decimal uni_word (mkInput qs1 docs) m
    ++ [not_found]
    ++ retrieve uni_decimal uni_word (mkInput qs2 docs) m
  /\ source_id not_found = NA
  /\ section_ref not_found = None
  /\ text not_found
     = [0x5DC; 0x5D0; 0x20; 0x5E0; 0x5DE; 0x5E6; 0x5D0; 0x20; 0x5DE; 0x5D9;
        0x5D3; 0x5E2; 0x20; 0x5EA; 0x5D5; 0x5D0; 0x5DD; 0x20; 0x5DC; 0x5E9;
        0x5D0; 0x5D9; 0x5DC; 0x5EA; 0x5D4; 0x20; 0x5D1; 0x5DE; 0x5E1; 0x5DE;
        0x5DB; 0x5D9; 0x20; 0x5D4; 0x5E7; 0x5E8; 0x5D9; 0x5D8; 0x5E8; 0x5D9;
        0x5D5; 0x5E0; 0x5D9; 0x5DD; 0x20; 0x5E9; 0x5E1; 0x5D5; 0x5E4; 0x5E7;
        0x5D5; 0x2E]%N.
Proof.
  intros _ Hno. split; [|repeat split].
  rewrite !retrieve_eq. cbn [criteria_queries criteria_documents].
  rewrite flat_map_app. cbn [flat_map]. do 2 f_equal.
  assert (E : candidates_of uni_decimal uni_word docs q = []).
  { unfold candidates_of. apply flat_map_nil. intros d Hd.
    unfold to_candidate. rewrite best_snippet_eq.
    destruct (raw_snippet_cases q 2 (content d))
      as [(seg & Hf & Hpos & _ & _) | (_ & _ & _ & Er)];
      cbv zeta in *; [exfalso | now rewrite Er].
    apply match_score_pos in Hpos as (kw & Hkw & _ & Hin).
    destruct Hno as [E | Hno]; [rewrite E in Hkw; contradiction|].
    apply contains_spec in Hin.
    rewrite (Hno d seg kw Hd (or_introl (first_best_In Hf)) Hkw) in Hin.
    discriminate. }
  unfold batch. now rewrite E.
Qed.

End Batches.

(** ** Validation *)

Lemma new_CriteriaDocument_cases i c :
  (blank i = false /\ blank c = false
   /\ new_CriteriaDocument i c = inr (mkDoc i c))
  \/ ((blank i = true \/ blank c = true)
      /\ exists e, e <> [] /\ new_CriteriaDocument i c = inl e).
Proof.
  unfold new_CriteriaDocument, Validate.non_empty.
  destruct (blank i), (blank c); simpl;
    solve [ left; auto
          | right; split; [auto|]; eexists; split; [|reflexivity];
            discriminate ].
Qed.

Lemma new_documents_cases docs :
  (Forall (fun r => blank (fst r) = false /\ blank (snd r) = false) docs
   /\ new_documents docs = inr (as_documents docs))
  \/ (Exists bad_document docs
      /\ exists e, e <> [] /\ new_documents docs = inl e).
Proof.
  induction docs as [|r rest IH]; [left; split; [constructor | reflexivity]|].
  cbn [new_documents].
  destruct (new_CriteriaDocument_cases (fst r) (snd r))
    as [(H1 & H2 & ->) | (Hb & e & He & ->)];
    destruct IH as [(HF & ->) | (HE & e' & He' & ->)].
  - left. split; [now constructor | reflexivity].
  - right. split; [now apply Exists_cons_tl|]. now exists e'.
  - right. split; [now apply Exists_cons_hd|]. now exists e.
  - right. split; [now apply Exists_cons_hd|]. exists (e ++ e').
    split; [|reflexivity]. intros E. now apply app_eq_nil in E as [E _].
Qed.

Lemma non_empty_queries_cases queries :
  (queries <> [] /\ Forall (fun q => blank q = false) queries
   /\ Validate.non_empty_queries queries = [])
  \/ ((queries = [] \/ Exists (fun q => blank q = true) queries)
      /\ Validate.non_empty_queries queries = [NoNonEmptyQuery]).
Proof.
  unfold Validate.non_empty_queries.
  destruct queries as [|q qs]; [right; auto|].
  destruct (forallb (fun q => Py.truthy (Py.strip q)) (q :: qs)) eqn:E.
  - left. split; [discriminate|]. split; [|reflexivity].
    rewrite forallb_forall in E. apply Forall_forall. intros x Hx.
    unfold blank. now rewrite (E x Hx).
  - right. split; [|reflexivity]. right.
    apply Exists_exists.
    assert (H : exists x, In x (q :: qs)
                          /\ Py.truthy (Py.strip x) = false).
    { clear -E. induction (q :: qs) as [|x l IH]; [discriminate|].
      simpl in E. apply andb_false_iff in E as [E | E].
      - exists x. split; [now left | exact E].
      - destruct (IH E) as (y & Hy & Ey). exists y. split; [now right | exact Ey]. }
    destruct H as (x & Hx & Ex). exists x. split; [exact Hx|].
    unfold blank. now rewrite Ex.
Qed.

Lemma Forall_Exists_clash {A} (P Q : A -> Prop) l :
  (forall x, P x -> Q x -> False) -> Forall P l -> Exists Q l -> False.
Proof.
  intros H HF HE. apply Exists_exists in HE as (x & Hx & HQ).
  rewrite Forall_forall in HF. eauto.
Qed.

Lemma new_RetrieverInput_cases queries docs :
  (rejected queries docs
   /\ exists errs, errs <> [] /\ new_RetrieverInput queries docs = inl errs)
  \/ (~ rejected queries docs
      /\ new_RetrieverInput queries docs
         = inr (mkInput queries (as_documents docs))
      /\ valid_input (mkInput queries (as_documents docs))).
Proof.
  unfold new_RetrieverInput, rejected.
  destruct (non_empty_queries_cases queries)
    as [(Hq1 & Hq2 & ->) | (Hq & ->)];
    destruct (new_documents_cases docs) as [(Hd & ->) | (Hd & e & He & ->)].
  - destruct docs as [|r rest].
    + left. split; [auto|]. eexists. split; [|reflexivity]. discriminate.
    + right. split; [|split; [reflexivity|]].
      * intros [H | [H | [H | H]]]; try congruence.
        -- eapply Forall_Exists_clash; [|exact Hq2 | exact H].
           simpl. intros; congruence.
        -- eapply Forall_Exists_clash; [|exact Hd | exact H].
           unfold bad_document. simpl. intros x [] []; congruence.
      * repeat split; auto; try discriminate.
        cbn [criteria_documents]. unfold as_documents.
        apply Forall_map. exact Hd.
  - left. split; [auto|]. now exists e.
  - left. split; [tauto|].
    destruct (as_documents docs);
      eexists; (split; [|reflexivity]); discriminate.
  - left. split; [tauto|]. eexists. split; [|reflexivity]. discriminate.
Qed.

(** C8.  Constructing the input fails with a validation error exactly when
    the query list is empty, a query is blank, the document list is empty,
    or a document has a blank [id] or [content]; in that case the caller
    gets the error and no retrieval result, and otherwise [retrieve] runs on
    the constructed input, which satisfies the four conditions. *)
Theorem validation_rejects_exactly uni_decimal uni_word queries docs m :
  (rejected queries docs
   <-> exists errs, errs <> []
                    /\ new_RetrieverInput queries docs = inl errs)
  /\ (rejected queries docs
      <-> exists errs, errs <> []
                       /\ run_retriever uni_decimal uni_word queries docs m
                          = inl errs)
  /\ (~ rejected queries docs
      <-> new_RetrieverInput queries docs
          = inr (mkInput queries (as_documents docs))
          /\ valid_input (mkInput queries (as_documents docs))
          /\ run_retriever uni_decimal uni_word queries docs m
             = inr (retrieve uni_decimal uni_word
                      (mkInput queries (as_documents docs)) m)).
Proof.
  unfold run_retriever.
  destruct (new_RetrieverInput_cases queries docs)
    as [(Hr & errs & Hne & ->) | (Hn & -> & Hv)].
  - split; [|split]; split; eauto; try tauto.
    intros (H & _). discriminate.
  - split; [|split]; split; try tauto;
      try (intros (errs & _ & H); discriminate); auto.
Qed.

(** ** Paragraph units *)

Lemma dropwhile_idem p s :
  Py.dropwhile p (Py.dropwhile p s) = Py.dropwhile p s.
Proof.
  induction s as [|c s IH]; simpl; auto.
  destruct (p c) eqn:E; auto. simpl. now rewrite E.
Qed.

Lemma strip_idem x : Py.strip (Py.strip x) = Py.strip x.
Proof.
  assert (H : Py.lstrip (Py.strip x) = Py.strip x).
  { unfold Py.lstrip. destruct (Py.strip x) as [|c t] eqn:E; [reflexivity|].
    apply strip_head in E. simpl. now rewrite E. }
  unfold Py.strip at 1. rewrite H. unfold Py.strip, Py.rstrip.
  now rewrite rev_involutive, dropwhile_idem.
Qed.

(** Every unit returned by [split_to_paragraphs] is trimmed and not
    empty. *)
Lemma paragraph_units content p :
  In p (split_to_paragraphs content) -> p <> [] /\ Py.strip p = p.
Proof.
  intros Hp. split; [now apply paragraph_nonempty in Hp|].
  revert Hp. unfold split_to_paragraphs, stripped_nonblank.
  destruct (length _ <=? 1)%nat; intros Hp;
    apply in_map_iff in Hp as (x & <- & _); apply strip_idem.
Qed.

(** C4.  On the text [a], blank line, [b], line break, [c] the blank line
    yields two units, so the documented segmentation returns [a] and the
    two-line unit; [split_to_paragraphs] cuts at the single line break as
    well and returns three units. *)
Theorem split_to_paragraphs_single_break :
  split_to_paragraphs [97; 10; 10; 98; 10; 99]%N
  = [[97%N]; [98%N]; [99%N]]
  /\ paragraphs_by_blank_lines [97; 10; 10; 98; 10; 99]%N
     = [[97%N]; [98; 10; 99]%N].
Proof. split; vm_compute; reflexivity. Qed.

(** * Concrete runs *)

Ltac valid_by_computation :=
  unfold valid_input; repeat split;
  try discriminate;
  repeat (constructor; try (split; vm_compute; reflexivity);
          try (vm_compute; reflexivity)).

(** C1, counterexample.  One query that matches in the one document, with
    [max_per_query = 2]: the output has one record, not two. *)
Lemma retrieve_count_counterexample :
  valid_input Run.one_doc_input
  /\ (forall q d,
        In q (criteria_queries Run.one_doc_input) ->
        In d (criteria_documents Run.one_doc_input) ->
        matches basic_decimal basic_word q d = true)
  /\ retrieve basic_decimal basic_word Run.one_doc_input 2
     = [mkSection [68%N] [97; 97; 32; 98; 98]%N None]
  /\ length (retrieve basic_decimal basic_word Run.one_doc_input 2)
     <> (length (criteria_queries Run.one_doc_input) * Z.to_nat 2)%nat.
Proof.
  split; [valid_by_computation|]. split.
  - intros q d [<- | []] [<- | []]. vm_compute. reflexivity.
  - split; [vm_compute; reflexivity | vm_compute; discriminate].
Qed.

(** C3, counterexample.  The snippet has 702 characters, more than 700, and
    the emitted text has 700 characters, not 701: the space at the cut is
    removed before the ellipsis is appended. *)
Lemma truncation_length_counterexample :
  raw_snippet (keywords_from_query Run.aa 2) Run.long_content
  = Some Run.long_content
  /\ length (Py.strip Run.long_content) = 702%nat
  /\ retrieve basic_decimal basic_word Run.long_input 1 = [Run.long_record]
  /\ length (text Run.long_record) = 700%nat
  /\ length (text Run.long_record) <> (700 + 1)%nat.
Proof.
  repeat split; try (vm_compute; reflexivity). vm_compute. discriminate.
Qed.

(** The run on the document with the section label: the label of the first
    line is found through the window and attached to the second line. *)
Example age_run :
  retrieve basic_decimal basic_word Run.age_input 1 = [Run.age_record].
Proof. vm_compute. reflexivity. Qed.

Lemma retrieve_batches_witness :
  valid_input Run.one_doc_input /\ (1 <= 2)%Z
  /\ retrieve basic_decimal basic_word Run.one_doc_input 2
     = flat_map
         (batch basic_decimal basic_word
            (criteria_documents Run.one_doc_input) 2)
         (criteria_queries Run.one_doc_input).
Proof.
  assert (Hv : valid_input Run.one_doc_input) by valid_by_computation.
  assert (Hm : (1 <= 2)%Z) by lia.
  split; [exact Hv|]. split; [exact Hm|].
  exact (proj1 (@retrieve_batches basic_decimal basic_word
                  Run.one_doc_input 2 Hv Hm)).
Defined.

Lemma unmatched_query_sentinel_witness :
  valid_input (mkInput ([] ++ Run.stop_query :: []) [Run.law])
  /\ keywords_from_query Run.stop_query 2 = []
  /\ retrieve basic_decimal basic_word
       (mkInput ([] ++ Run.stop_query :: []) [Run.law]) 1
     = retrieve basic_decimal basic_word (mkInput [] [Run.law]) 1
       ++ [not_found]
       ++ retrieve basic_decimal basic_word (mkInput [] [Run.law]) 1.
Proof.
  assert (Hv : valid_input (mkInput ([] ++ Run.stop_query :: []) [Run.law]))
    by valid_by_computation.
  assert (Hk : keywords_from_query Run.stop_query 2 = [])
    by (vm_compute; reflexivity).
  split; [exact Hv|]. split; [exact Hk|].
  exact (proj1 (@unmatched_query_sentinel basic_decimal basic_word
                  [Run.law] 1 [] Run.stop_query [] Hv (or_introl Hk))).
Defined.

Lemma truncated_text_shape_witness :
  In Run.long_record (retrieve basic_decimal basic_word Run.long_input 1)
  /\ (Run.long_record = not_found
      \/ exists q d seg,
           In q (criteria_queries Run.long_input)
           /\ In d (criteria_documents Run.long_input)
           /\ raw_snippet (keywords_from_query q 2) (content d) = Some seg
           /\ source_id Run.long_record = id d
           /\ (((length (Py.strip seg) <= 700)%nat
                /\ text Run.long_record = Py.strip seg)
               \/ ((700 < length (Py.strip seg))%nat
                   /\ text Run.long_record
                      = Py.rstrip (firstn 700 (Py.strip seg)) ++ ellipsis
                   /\ (2 <= length (text Run.long_record) <= 701)%nat
                   /\ (length (text Run.long_record) = 701%nat
                       \/ Py.isspace (last (firstn 700 (Py.strip seg)) 0%N)
                          = true)))).
Proof.
  assert (Hin : In Run.long_record
                  (retrieve basic_decimal basic_word Run.long_input 1))
    by (vm_compute; left; reflexivity).
  split; [exact Hin|].
  exact (@truncated_text_shape basic_decimal basic_word
           Run.long_input 1 Run.long_record Hin).
Defined.

Lemma paragraph_index_never_raises_witness :
  (In Run.age_line (split_to_paragraphs (content Run.law))
   \/ exists best_sent best_score,
        best_segments (keywords_from_query Run.age_query 2)
          (content Run.law)
        = (Some Run.age_line, best_sent, best_score))
  /\ In Run.age_line (split_to_paragraphs (content Run.law))
  /\ infix Run.age_line (content Run.law)
  /\ exists idx, Py.index (content Run.law) Run.age_line = Some idx
                 /\ (idx + length Run.age_line
                     <= length (content Run.law))%nat.
Proof.
  assert (H : In Run.age_line (split_to_paragraphs (content Run.law))
              \/ exists best_sent best_score,
                   best_segments (keywords_from_query Run.age_query 2)
                     (content Run.law)
                   = (Some Run.age_line, best_sent, best_score)).
  { right. exists None, 2%nat. vm_compute. reflexivity. }
  split; [exact H|].
  exact (@paragraph_index_never_raises
           (keywords_from_query Run.age_query 2) (content Run.law)
           Run.age_line H).
Defined.

(** Construction refuses a blank query and an empty document list, and the
    caller then has an error instead of a result. *)
Example blank_query_rejected :
  run_retriever basic_decimal basic_word [[32; 9]%N] [([68%N], Run.aa)] 1
  = inl [NoNonEmptyQuery].
Proof. vm_compute. reflexivity. Qed.

Example no_document_rejected :
  run_retriever basic_decimal basic_word [Run.aa] [] 1
  = inl [NoCriteriaDocument].
Proof. vm_compute. reflexivity. Qed.

Example blank_content_rejected :
  run_retriever basic_decimal basic_word [Run.aa] [([68%N], [10; 32]%N)] 1
  = inl [EmptyStringField].
Proof. vm_compute. reflexivity. Qed.

(** Of two paragraphs with the same score the first is returned. *)
Example first_of_equal_paragraphs :
  best_snippet_for_query_in_doc basic_decimal basic_word Run.aa
    (mkDoc [68%N] [97; 97; 32; 120; 10; 97; 97; 32; 121]%N) 700
  = Some ([97; 97; 32; 120]%N, None).
Proof. vm_compute. reflexivity. Qed.

(** * Further properties *)

(** ** Normalization *)

Lemma split_from_chars (m : Re.matcher) (Q : char -> Prop) :
  (forall prev c t,
      (forall n, m prev (c :: t) <> Some (S n)) -> Q c) ->
  forall s prev skip cur,
    Forall Q cur ->
    Forall (Forall Q) (Re.split_from m prev skip cur s).
Proof.
  intros HQ. induction s as [|c t IH]; intros prev skip cur Hcur.
  - simpl. constructor; [now apply Forall_rev | constructor].
  - cbn [Re.split_from]. destruct skip as [|k]; [|now apply IH].
    destruct (m prev (c :: t)) as [[|n]|] eqn:E.
    + apply IH. constructor; [|exact Hcur].
      apply (HQ prev c t). intros n. rewrite E. discriminate.
    + constructor; [now apply Forall_rev | apply IH; constructor].
    + apply IH. constructor; [|exact Hcur].
      apply (HQ prev c t). intros n. rewrite E. discriminate.
Qed.

Lemma split_plus_chars cls s :
  Forall (Forall (fun c => cls c = false)) (Re.split (Re.plus cls) s).
Proof.
  apply split_from_chars; [|constructor].
  intros prev c t H. unfold Re.plus in H. cbn [Re.run] in H.
  destruct (cls c); [|reflexivity]. now destruct (H (Re.run cls t)).
Qed.

Lemma Pieces_In (P : str -> Prop) ps t c :
  Pieces P ps t -> In c t ->
  (exists p, In p ps /\ In c p) \/ (exists sep, P sep /\ In c sep).
Proof.
  induction 1 as [q | q sep rest t Hs H IH]; intros Hc.
  - left. exists q. split; [now left | exact Hc].
  - apply in_app_or in Hc as [Hc | Hc].
    + left. exists q. split; [now left | exact Hc].
    + apply in_app_or in Hc as [Hc | Hc].
      * right. now exists sep.
      * destruct (IH Hc) as [(p & Hp & Hcp) | Hsep]; [left | now right].
        exists p. split; [now right | exact Hcp].
Qed.

(** A character of the text with collapsed blanks is the space, or a
    character of the text that is neither a space nor a tab. *)
Lemma collapse_In s c :
  In c (Re.sub (Re.plus is_blank) [0x20%N] s) ->
  c = 0x20%N \/ (is_blank c = false /\ In c s).
Proof.
  intros Hc.
  pose proof (@plus_matches is_blank is_blank_space) as Hm.
  destruct (@Pieces_In _ _ _ c (sub_Pieces [0x20%N] Hm s) Hc)
    as [(p & Hp & Hcp) | (sep & <- & [<- | []])]; [right | now left].
  split.
  - pose proof (split_plus_chars is_blank s) as H.
    rewrite Forall_forall in H. specialize (H p Hp).
    rewrite Forall_forall in H. now apply H.
  - eapply infix_In; [|exact Hcp].
    eapply Pieces_infix; [apply (split_Pieces Hm s) | exact Hp].
Qed.

Lemma plus_cons cls prev c t :
  Re.plus cls prev (c :: t)
  = if cls c then Some (S (Re.run cls t)) else None.
Proof. unfold Re.plus. cbn [Re.run]. now destruct (cls c). Qed.

(** Collapsing never leaves two spaces side by side. *)
Lemma collapse_single_spaced s : forall prev skip,
  skip = O \/ skip = Re.run is_blank s ->
  let o := Re.sub_from (Re.plus is_blank) [0x20%N] prev skip s in
  Py.contains [0x20; 0x20]%N o = false
  /\ (skip = Re.run is_blank s -> Py.startswith [0x20%N] o = false).
Proof.
  induction s as [|c t IH]; intros prev skip Hskip; cbv zeta.
  - simpl. auto.
  - cbn [Re.sub_from]. destruct skip as [|k].
    + rewrite plus_cons. destruct (is_blank c) eqn:Ec.
      * destruct (IH (Some c) (Re.run is_blank t) (or_intror eq_refl))
          as [H1 H2]. cbv zeta in H1, H2. specialize (H2 eq_refl).
        split;
          [|intros H; cbn [Re.run] in H; rewrite Ec in H; discriminate].
        cbn [app Py.contains]. rewrite H1, orb_false_r.
        change (Py.startswith [32%N; 32%N] (32%N :: ?o))
          with (Py.startswith [32%N] o).
        exact H2.
      * destruct (IH (Some c) O (or_introl eq_refl)) as [H1 _].
        cbv zeta in H1. split.
        -- cbn [Py.contains]. rewrite H1, orb_false_r.
           cbn [Py.startswith].
           destruct (N.eqb_spec 32 c) as [<- | _]; [discriminate|].
           reflexivity.
        -- intros _. cbn [Py.startswith].
           destruct (N.eqb_spec 32 c) as [<- | _]; [discriminate|].
           reflexivity.
    + destruct Hskip as [Hskip | Hskip]; [discriminate|].
      cbn [Re.run] in Hskip. destruct (is_blank c); [|discriminate].
      injection Hskip as ->.
      destruct (IH (Some c) (Re.run is_blank t) (or_intror eq_refl))
        as [H1 H2]. cbv zeta in H1, H2. auto.
Qed.

Lemma normalize_unfold text :
  normalize_hebrew text
  = Py.strip (Re.sub (Re.plus is_blank) [0x20%N]
                (filter (fun c => negb (is_niqqud c)) text)).
Proof.
  unfold normalize_hebrew. unfold Re.sub at 2. now rewrite sub_niqqud.
Qed.

Lemma normalized_shape text :
  Forall (fun c => is_niqqud c = false /\ c <> 0x09%N)
    (normalize_hebrew text)
  /\ Py.strip (normalize_hebrew text) = normalize_hebrew text
  /\ Py.contains [0x20; 0x20]%N (normalize_hebrew text) = false.
Proof.
  rewrite normalize_unfold. split; [|split].
  - apply Forall_forall. intros c Hc.
    apply (@infix_In _ _ c (strip_infix _)) in Hc.
    apply collapse_In in Hc as [-> | [Hb Hc]].
    + split; [reflexivity | discriminate].
    + apply filter_In in Hc as [_ Hn]. apply negb_true_iff in Hn.
      split; [exact Hn|]. intros ->. discriminate.
  - apply strip_idem.
  - destruct (Py.contains _ (Py.strip _)) eqn:E; [|reflexivity].
    apply contains_spec in E.
    apply (fun H => @infix_trans _ _ _ H (strip_infix _)), contains_spec in E.
    destruct (@collapse_single_spaced
                (filter (fun c => negb (is_niqqud c)) text) None O
                (or_introl eq_refl)) as [H _].
    cbv zeta in H. unfold Re.sub in E. congruence.
Qed.

(** X1.  A normalized text has no niqqud and no tab, has no white space at
    either end, and never has two spaces side by side. *)
Theorem normalize_hebrew_clean text :
  Forall (fun c => is_niqqud c = false /\ c <> 0x09%N)
    (normalize_hebrew text)
  /\ Py.strip (normalize_hebrew text) = normalize_hebrew text
  /\ Py.contains [0x20; 0x20]%N (normalize_hebrew text) = false.
Proof. exact (normalized_shape text). Qed.

Lemma collapse_id s : forall prev,
  Forall (fun c => c <> 0x09%N) s ->
  Py.contains [0x20; 0x20]%N s = false ->
  Re.sub_from (Re.plus is_blank) [0x20%N] prev O s = s.
Proof.
  induction s as [|c t IH]; intros prev Htab Hdd; [reflexivity|].
  cbn [Re.sub_from]. rewrite plus_cons.
  inversion Htab as [|? ? Hc Ht]; subst.
  cbn [Py.contains] in Hdd. apply orb_false_iff in Hdd as [Hs Hdd].
  destruct (is_blank c) eqn:Ec.
  - assert (c = 0x20%N) as -> by (revert Ec Hc; class_arith).
    assert (Hrun : Re.run is_blank t = O).
    { destruct t as [|d t']; [reflexivity|]. cbn [Re.run].
      inversion Ht as [|? ? Hd _]; subst.
      change (Py.startswith [32%N; 32%N] (32%N :: d :: t'))
        with ((32 =? d)%N && true) in Hs.
      rewrite andb_true_r in Hs. apply N.eqb_neq in Hs.
      destruct (is_blank d) eqn:Ed; [|reflexivity].
      exfalso. revert Ed Hd Hs. class_arith. }
    rewrite Hrun. cbn [app]. f_equal. now apply IH.
  - f_equal. now apply IH.
Qed.

Lemma normalize_fixed text :
  normalize_hebrew (normalize_hebrew text) = normalize_hebrew text.
Proof.
  destruct (normalized_shape text) as (Hc & Hs & Hd).
  rewrite normalize_unfold at 1.
  rewrite forallb_filter_id.
  - unfold Re.sub. rewrite collapse_id; auto.
    eapply Forall_impl; [|exact Hc]. simpl. tauto.
  - apply forallb_forall. rewrite Forall_forall in Hc.
    intros c Hin. destruct (Hc c Hin) as [-> _]. reflexivity.
Qed.

(** X2.  Normalizing a normalized text changes nothing. *)
Theorem normalize_hebrew_idempotent text :
  normalize_hebrew (normalize_hebrew text) = normalize_hebrew text.
Proof. exact (normalize_fixed text). Qed.

Lemma filter_Pieces (f : char -> bool) (P : str -> Prop) ps t :
  (forall sep, P sep -> filter f sep = []) ->
  Pieces P ps t -> filter f t = concat (map (filter f) ps).
Proof.
  intros HP. induction 1 as [q | q sep rest t Hs H IH]; simpl.
  - now rewrite app_nil_r.
  - rewrite !filter_app, (HP _ Hs), IH. reflexivity.
Qed.

Lemma filter_blank_only (f : char -> bool) sep :
  (forall c, Py.isspace c = true -> f c = false) ->
  blank_only sep -> filter f sep = [].
Proof.
  intros Hf. induction 1 as [|c sep Hc _ IH]; [reflexivity|].
  simpl. now rewrite (Hf c Hc).
Qed.

(** X3.  Normalization touches white space and niqqud only: the characters
    of the result that are not white space are the characters of the text
    that are neither white space nor niqqud, in the same order. *)
Theorem normalize_hebrew_keeps_text text :
  filter (fun c => negb (Py.isspace c)) (normalize_hebrew text)
  = filter (fun c => negb (Py.isspace c) && negb (is_niqqud c)) text.
Proof.
  set (f := fun c => negb (Py.isspace c)).
  assert (Hf : forall c, Py.isspace c = true -> f c = false)
    by (intros c H; unfold f; now rewrite H).
  rewrite normalize_unfold.
  set (y := filter (fun c => negb (is_niqqud c)) text).
  set (x := Re.sub (Re.plus is_blank) [0x20%N] y).
  destruct (strip_decomp x) as (lead & trail & E & Hl & Ht).
  assert (Ex : filter f (Py.strip x) = filter f x).
  { rewrite E at 2. rewrite !filter_app.
    rewrite (filter_blank_only f Hf Hl), (filter_blank_only f Hf Ht).
    now rewrite app_nil_r. }
  rewrite Ex. unfold x.
  pose proof (@plus_matches is_blank is_blank_space) as Hm.
  rewrite (@filter_Pieces f (eq [0x20%N]) _ _
             ltac:(intros sep <-; reflexivity) (sub_Pieces [0x20%N] Hm y)).
  rewrite <- (@filter_Pieces f blank_sep _ _
                ltac:(intros sep [H _]; now apply filter_blank_only)
                (split_Pieces Hm y)).
  unfold y, f. clear. induction text as [|c t IH]; [reflexivity|].
  cbn [filter]. destruct (is_niqqud c); cbn [negb filter].
  - rewrite andb_false_r. exact IH.
  - rewrite andb_true_r. destruct (negb (Py.isspace c)); [f_equal|]; exact IH.
Qed.

(** ** Scores *)

Lemma match_score_filter t kws :
  match_score t kws = length (filter (hit t) kws).
Proof.
  induction kws as [|k ks IH]; [reflexivity|].
  unfold match_score. cbn [fold_left filter]. fold (hit t k).
  destruct (hit t k).
  - rewrite (match_score_from ks t 1). cbn [length]. now rewrite IH.
  - exact IH.
Qed.

Lemma filter_length_le {A} (f g : A -> bool) l :
  (forall x, f x = true -> g x = true) ->
  (length (filter f l) <= length (filter g l))%nat.
Proof.
  intros H. induction l as [|x l IH]; [reflexivity|]. simpl.
  destruct (f x) eqn:E.
  - rewrite (H x E). simpl. lia.
  - destruct (g x); simpl; lia.
Qed.

(** X4.  The score is the number of entries of the keyword list that are
    not empty and occur in the text, an entry listed twice counting twice;
    so it is at most the number of non-empty keywords, it is 0 on the empty
    text, and a text scores at least as much as any of its substrings. *)
Theorem match_score_monotone t t' kws :
  infix t t' ->
  (forall x, match_score x kws = length (filter (hit x) kws))
  /\ (forall x kw, hit x kw = true <-> kw <> [] /\ infix kw x)
  /\ (match_score t kws <= match_score t' kws)%nat
  /\ (match_score t' kws <= length (filter Py.truthy kws))%nat
  /\ match_score [] kws = O.
Proof.
  intros Hin.
  split; [intros x; apply match_score_filter|].
  split.
  { intros x kw. unfold hit.
    now rewrite andb_true_iff, truthy_true, contains_spec. }
  rewrite !match_score_filter. split; [|split].
  - apply filter_length_le. intros kw H. unfold hit in *.
    apply andb_true_iff in H as [H1 H2]. rewrite H1. simpl.
    apply contains_spec. eapply infix_trans; [|exact Hin].
    now apply contains_spec.
  - apply filter_length_le. intros kw H. unfold hit in H.
    now apply andb_true_iff in H as [H _].
  - induction kws as [|k ks IH]; [reflexivity|]. cbn [filter].
    assert (E : hit [] k = false) by (destruct k; reflexivity).
    now rewrite E.
Qed.

Lemma filter_length_perm (f : str -> bool) l l' :
  Permutation l l' -> length (filter f l) = length (filter f l').
Proof.
  induction 1 as [| x l l' _ IH | x y l | l l' l'' _ IH1 _ IH2]; simpl.
  - reflexivity.
  - destruct (f x); simpl; now rewrite IH.
  - destruct (f x), (f y); reflexivity.
  - now rewrite IH1.
Qed.

Lemma fold_left_ext {A B} (f g : A -> B -> A) l : forall a,
  (forall a x, f a x = g a x) -> fold_left f l a = fold_left g l a.
Proof.
  induction l as [|x l IH]; intros a H; [reflexivity|].
  simpl. rewrite H. now apply IH.
Qed.

Lemma best_segments_ext kws kws' content :
  (forall seg, score_of kws seg = score_of kws' seg) ->
  best_segments kws content = best_segments kws' content.
Proof.
  intros H. unfold best_segments.
  assert (E : forall st seg, scan_step kws st seg = scan_step kws' st seg).
  { intros st seg. unfold scan_step. fold (score_of kws seg).
    fold (score_of kws' seg). now rewrite H. }
  rewrite (fold_left_ext _ _ _ _ E).
  destruct (fold_left (scan_step kws') (split_to_paragraphs content) (None, O))
    as [bp sc].
  now rewrite (fold_left_ext _ _ _ _ E).
Qed.

(** X5.  The order of the words of a query does not matter: two queries
    whose keyword lists are permutations of each other get the same answer
    from every document. *)
Theorem keyword_order_irrelevant uni_decimal uni_word q q' d maxc :
  Permutation (keywords_from_query q 2) (keywords_from_query q' 2) ->
  best_snippet_for_query_in_doc uni_decimal uni_word q d maxc
  = best_snippet_for_query_in_doc uni_decimal uni_word q' d maxc.
Proof.
  intros Hp. rewrite !best_snippet_eq. unfold raw_snippet.
  rewrite (@best_segments_ext (keywords_from_query q 2)
             (keywords_from_query q' 2) (content d)); [reflexivity|].
  intros seg. unfold score_of. rewrite !match_score_filter.
  now apply filter_length_perm.
Qed.

(** ** Section labels *)

Lemma firstn_plus {A} (l : list A) a b :
  firstn (a + b) l = firstn a l ++ firstn b (skipn a l).
Proof.
  revert l. induction a as [|a IH]; intros l; [reflexivity|].
  destruct l as [|x l]; simpl.
  - now rewrite firstn_nil.
  - now rewrite IH.
Qed.

Lemma skipn_plus {A} (l : list A) a b :
  skipn (a + b) l = skipn b (skipn a l).
Proof.
  revert l. induction a as [|a IH]; intros l; [reflexivity|].
  destruct l as [|x l]; simpl; [now rewrite skipn_nil | apply IH].
Qed.

Lemma run_firstn_le cls s j :
  (j <= Re.run cls s)%nat ->
  sep_only cls (firstn j s) /\ length (firstn j s) = j.
Proof.
  revert j. induction s as [|c s IH]; intros j Hj; simpl in Hj.
  - assert (j = O) as -> by lia. split; [constructor | reflexivity].
  - destruct j as [|j]; [split; [constructor | reflexivity]|].
    destruct (cls c) eqn:E; [|lia].
    destruct (IH j ltac:(lia)) as [H1 H2]. simpl.
    split; [now constructor | now rewrite H2].
Qed.

Lemma run_app_ge cls a b :
  sep_only cls a -> (length a <= Re.run cls (a ++ b))%nat.
Proof.
  induction 1 as [|c a Hc _ IH]; simpl; [lia|]. rewrite Hc. lia.
Qed.

Section Labels.

Variable uni_decimal : char -> bool.
Variable uni_word : char -> bool.

Lemma spaces_then_digit_sound k s n :
  spaces_then_digit uni_decimal k s = Some n ->
  exists j, (1 <= j <= k)%nat
            /\ (1 <= Re.run uni_decimal (skipn j s))%nat
            /\ n = (j + Re.run uni_decimal (skipn j s))%nat.
Proof.
  induction k as [|k IH]; [discriminate|]. cbn [spaces_then_digit].
  destruct (Re.run uni_decimal (skipn (S k) s)) as [|d] eqn:E.
  - intros H. destruct (IH H) as (j & Hj & Hd & ->). exists j.
    repeat split; auto; lia.
  - intros [= <-]. exists (S k). rewrite E. repeat split; lia.
Qed.

Lemma spaces_then_digit_complete k s j :
  (1 <= j <= k)%nat -> (1 <= Re.run uni_decimal (skipn j s))%nat ->
  exists n, spaces_then_digit uni_decimal k s = Some n.
Proof.
  induction k as [|k IH]; intros Hj Hd; [lia|]. cbn [spaces_then_digit].
  destruct (Re.run uni_decimal (skipn (S k) s)) as [|d] eqn:E.
  - apply IH; [|exact Hd]. destruct (Nat.eq_dec j (S k)) as [-> | Hn]; [|lia].
    rewrite E in Hd. lia.
  - eexists. reflexivity.
Qed.

(** A match of the label pattern: the word, white space, digits, label
    characters. *)
Lemma section_ref_shape prev rest n :
  _SECTION_REF_RE uni_decimal uni_word prev rest = Some n ->
  exists ws ds lab tail,
    rest = seif ++ ws ++ ds ++ lab ++ tail
    /\ firstn n rest = seif ++ ws ++ ds ++ lab
    /\ ws <> [] /\ blank_only ws
    /\ ds <> [] /\ sep_only uni_decimal ds
    /\ sep_only (is_label_char uni_word) lab.
Proof.
  unfold _SECTION_REF_RE.
  destruct (Py.startswith seif rest) eqn:Es; [|discriminate].
  apply startswith_spec in Es as (s1 & ->).
  change (skipn 4 (seif ++ s1)) with s1.
  destruct (spaces_then_digit uni_decimal (Re.run Py.isspace s1) s1)
    as [n'|] eqn:E; [|discriminate].
  intros [= <-].
  apply spaces_then_digit_sound in E as (j & Hj & Hd & ->).
  set (d := Re.run uni_decimal (skipn j s1)) in *.
  set (l := Re.run (is_label_char uni_word) (skipn (j + d) s1)).
  destruct (@run_firstn_le Py.isspace s1 j ltac:(lia)) as [Hws Hlen].
  destruct (run_spec uni_decimal (skipn j s1)) as [_ Hds].
  destruct (run_spec (is_label_char uni_word) (skipn (j + d) s1))
    as [_ Hlab].
  fold d in Hds. fold l in Hlab.
  exists (firstn j s1), (firstn d (skipn j s1)),
    (firstn l (skipn (j + d) s1)), (skipn l (skipn (j + d) s1)).
  assert (Es1 : s1 = firstn j s1 ++ firstn d (skipn j s1)
                       ++ firstn l (skipn (j + d) s1)
                       ++ skipn l (skipn (j + d) s1)).
  { rewrite firstn_skipn, skipn_plus, firstn_skipn, firstn_skipn.
    reflexivity. }
  repeat split; auto.
  - now rewrite <- Es1.
  - change (S (S (S (S (j + d + l))))) with (length seif + (j + d + l))%nat.
    rewrite firstn_app_2. f_equal.
    rewrite !firstn_plus, <- app_assoc. reflexivity.
  - intros E. rewrite E in Hlen. simpl in Hlen. lia.
  - intros E. apply (f_equal (@length _)) in E.
    destruct (run_spec uni_decimal (skipn j s1)) as [Hle _]. fold d in Hle.
    rewrite length_firstn in E. simpl in E. lia.
Qed.

Lemma section_ref_complete prev ws c post :
  ws <> [] -> blank_only ws -> uni_decimal c = true ->
  exists n,
    _SECTION_REF_RE uni_decimal uni_word prev (seif ++ ws ++ c :: post)
    = Some n.
Proof.
  intros Hne Hws Hc. unfold _SECTION_REF_RE.
  assert (Es : Py.startswith seif (seif ++ ws ++ c :: post) = true)
    by (apply startswith_spec; eauto).
  rewrite Es. change (skipn 4 (seif ++ ?s)) with s.
  destruct (@spaces_then_digit_complete
              (Re.run Py.isspace (ws ++ c :: post)) (ws ++ c :: post)
              (length ws)) as (n & ->).
  - split; [destruct ws; [congruence | simpl; lia]|].
    now apply run_app_ge.
  - rewrite skipn_app, skipn_all, Nat.sub_diag. simpl. rewrite Hc. lia.
  - eexists. reflexivity.
Qed.

Lemma search_from_sound (m : Re.matcher) s : forall prev r,
  (forall p p' x, m p x = m p' x) ->
  Re.search_from m prev s = Some r ->
  exists pre rest n,
    s = pre ++ rest /\ m None rest = Some n /\ r = firstn n rest
    /\ forall a b, pre = a ++ b -> b <> [] -> m None (b ++ rest) = None.
Proof.
  induction s as [|c t IH]; intros prev r Hm; cbn [Re.search_from].
  - destruct (m prev []) as [n|] eqn:E; [|discriminate].
    intros [= <-]. exists [], [], n. rewrite <- (Hm prev None), E.
    repeat split; auto. intros a b H. symmetry in H.
    apply app_eq_nil in H as [_ ->]. congruence.
  - destruct (m prev (c :: t)) as [n|] eqn:E.
    + intros [= <-]. exists [], (c :: t), n. rewrite <- (Hm prev None), E.
      repeat split; auto. intros a b H. symmetry in H.
      apply app_eq_nil in H as [_ ->]. congruence.
    + intros H. destruct (IH _ _ Hm H) as (pre & rest & n & -> & Hn & -> & Hno).
      exists (c :: pre), rest, n. repeat split; auto.
      intros a b Hab Hb. destruct a as [|x a].
      * simpl in Hab. subst b. simpl. now rewrite <- (Hm prev None).
      * injection Hab as -> Hab. now apply Hno with (a := a).
Qed.

Lemma search_from_none (m : Re.matcher) s : forall prev,
  (forall p p' x, m p x = m p' x) ->
  Re.search_from m prev s = None ->
  forall a b, s = a ++ b -> m None b = None.
Proof.
  induction s as [|c t IH]; intros prev Hm; cbn [Re.search_from].
  - destruct (m prev []) eqn:E; [discriminate|]. intros _ a b H.
    symmetry in H. apply app_eq_nil in H as [_ ->]. now rewrite <- (Hm prev).
  - destruct (m prev (c :: t)) eqn:E; [discriminate|]. intros H a b Hab.
    destruct a as [|x a].
    + simpl in Hab. subst b. now rewrite <- (Hm prev).
    + injection Hab as _ Hab. now apply (IH _ Hm H a).
Qed.

Lemma section_ref_prev p p' x :
  _SECTION_REF_RE uni_decimal uni_word p x
  = _SECTION_REF_RE uni_decimal uni_word p' x.
Proof. reflexivity. Qed.

Lemma search_section_shape text r :
  Re.search_from (_SECTION_REF_RE uni_decimal uni_word) None text = Some r ->
  exists pre post ws ds lab,
    text = pre ++ r ++ post
    /\ r = seif ++ ws ++ ds ++ lab
    /\ ws <> [] /\ blank_only ws
    /\ ds <> [] /\ sep_only uni_decimal ds
    /\ sep_only (is_label_char uni_word) lab
    /\ forall a b, pre = a ++ b -> b <> [] ->
         _SECTION_REF_RE uni_decimal uni_word None (b ++ r ++ post) = None.
Proof.
  intros H.
  apply (@search_from_sound _ _ _ _ section_ref_prev) in H
    as (pre & rest & n & -> & Hn & -> & Hno).
  destruct (@section_ref_shape _ _ _ Hn)
    as (ws & ds & lab & tail & Er & Ef & H1 & H2 & H3 & H4 & H5).
  exists pre, tail, ws, ds, lab. rewrite Ef.
  assert (E : rest = (seif ++ ws ++ ds ++ lab) ++ tail)
    by (rewrite Er at 1; now rewrite <- !app_assoc).
  rewrite <- E. repeat split; auto.
Qed.

(** X6.  A label returned by [extract_section_ref] is cut from the text and
    is the leftmost match: it is made of the word for section, at least one
    white-space character, at least one digit and then label characters,
    and no match of the pattern starts before it. *)
Theorem extract_section_ref_leftmost text r :
  extract_section_ref uni_decimal uni_word text = Some r ->
  exists pre post ws ds lab,
    text = pre ++ r ++ post
    /\ r = seif ++ ws ++ ds ++ lab
    /\ ws <> [] /\ blank_only ws
    /\ ds <> [] /\ sep_only uni_decimal ds
    /\ sep_only (is_label_char uni_word) lab
    /\ forall a b, pre = a ++ b -> b <> [] ->
         _SECTION_REF_RE uni_decimal uni_word None (b ++ r ++ post) = None.
Proof. apply search_section_shape. Qed.

(** X7.  [extract_section_ref] returns [None] exactly when the text has no
    occurrence of the word for section followed by white space and a
    digit. *)
Theorem extract_section_ref_none text :
  extract_section_ref uni_decimal uni_word text = None
  <-> ~ exists pre ws c post,
          text = pre ++ seif ++ ws ++ c :: post
          /\ ws <> [] /\ blank_only ws /\ uni_decimal c = true.
Proof.
  unfold extract_section_ref, Re.search. split.
  - intros H (pre & ws & c & post & -> & Hne & Hws & Hc).
    pose proof (@search_from_none _ _ _ section_ref_prev H pre _ eq_refl) as Hn.
    destruct (@section_ref_complete None ws c post Hne Hws Hc) as (n & E).
    congruence.
  - intros Hno.
    destruct (Re.search_from _ None text) as [r|] eqn:E; [|reflexivity].
    exfalso. apply Hno.
    destruct (@search_section_shape _ _ E)
      as (pre & post & ws & ds & lab & -> & -> & Hw1 & Hw2 & Hd1 & Hd2 & _).
    destruct ds as [|c ds]; [congruence|]. inversion Hd2; subst.
    exists pre, ws, c, (ds ++ lab ++ post).
    repeat split; auto. now rewrite <- !app_assoc.
Qed.

End Labels.

(** ** Segments *)

Lemma sentence_pieces_no_newline text :
  Forall (Forall (fun c => c <> 0x0A%N))
    (Re.split _SENTENCE_SEP_RE text).
Proof.
  apply split_from_chars; [|constructor].
  intros prev c t H ->. unfold _SENTENCE_SEP_RE in H.
  rewrite !plus_cons in H. change (Py.isspace 10%N) with true in H.
  change (is_newline 10%N) with true in H.
  destruct (after_terminator prev); exact (H _ eq_refl).
Qed.

Lemma paragraph_pieces_no_newline text :
  Forall (Forall (fun c => c <> 0x0A%N))
    (Re.split _PARAGRAPH_SEP_RE text).
Proof.
  apply split_from_chars; [|constructor].
  intros prev c t H ->. unfold _PARAGRAPH_SEP_RE in H.
  cbn [Re.run crlf_run] in H. change (is_newline 10%N) with true in H.
  change (10 =? 10)%N with true in H. cbv iota in H.
  destruct (2 <=? S (Re.run is_newline t))%nat; exact (H _ eq_refl).
Qed.

Lemma splitlines_from_chars n : forall s cur,
  (length s <= n)%nat ->
  Forall (fun c => Py.islinebreak c = false) cur ->
  Forall (Forall (fun c => Py.islinebreak c = false))
    (Py.splitlines_from cur s).
Proof.
  induction n as [|n IH]; intros s cur Hn Hcur.
  - destruct s; [|simpl in Hn; lia]. simpl.
    destruct cur; constructor; [now apply Forall_rev | constructor].
  - destruct s as [|c t].
    { simpl. destruct cur; constructor; [now apply Forall_rev | constructor]. }
    simpl in Hn. cbn [Py.splitlines_from].
    destruct (Py.islinebreak c) eqn:Ec.
    + constructor; [now apply Forall_rev|].
      destruct (N.eqb c 13); [|apply IH; [lia | constructor]].
      destruct t as [|d t']; [apply IH; [simpl; lia | constructor]|].
      destruct (N.eqb d 10); apply IH; simpl in *; try lia; constructor.
    + apply IH; [lia | now constructor].
Qed.

Lemma stripped_chars (Q : char -> Prop) ps :
  Forall (Forall Q) ps -> Forall (Forall Q) (stripped_nonblank ps).
Proof.
  intros H. unfold stripped_nonblank. apply Forall_map.
  apply Forall_forall. intros p Hp. apply filter_In in Hp as [Hp _].
  rewrite Forall_forall in H. specialize (H p Hp).
  apply Forall_forall. intros c Hc. rewrite Forall_forall in H. apply H.
  exact (@infix_In _ _ c (strip_infix p) Hc).
Qed.

Lemma linebreak_newline c : Py.islinebreak c = false -> c <> 0x0A%N.
Proof. intros H ->. discriminate. Qed.

Lemma sentences_cut text : cuts (split_to_sentences text) text.
Proof.
  split; [intros p; apply sentence_infix|].
  intros m Hm Hin. unfold split_to_sentences.
  destruct (Pieces_cuts (split_Pieces sentence_sep_matches text))
    as [_ Hcov].
  destruct (Hcov m Hm Hin) as (p & Hp & Hmp).
  pose proof (solid_in_strip Hm Hmp) as Hs.
  assert (Hc : In (Py.strip p)
                 (map Py.strip
                    (filter (fun s => Py.truthy s && Py.truthy (Py.strip s))
                       (Re.split _SENTENCE_SEP_RE text)))).
  { apply in_map, filter_In. split; [exact Hp|].
    apply andb_true_iff. split; apply truthy_true.
    - eapply solid_nonempty; eauto.
    - eapply solid_nonempty; eauto. }
  destruct (map Py.strip _) as [|x xs]; [contradiction|].
  exists (Py.strip p). split; [exact Hc | exact Hs].
Qed.

(** A text that is not blank has a solid character. *)
Lemma strip_solid_char text :
  Py.strip text <> [] -> exists c, solid [c] /\ infix [c] text.
Proof.
  intros H. destruct (Py.strip text) as [|c t] eqn:E; [congruence|].
  exists c. pose proof (strip_head _ E) as Hc. split.
  - split; [discriminate | now repeat constructor].
  - eapply infix_trans; [|apply strip_infix]. rewrite E. now exists [], t.
Qed.

(** The sentences before the fall-back to the whole text. *)
Lemma sentence_candidates text :
  let cands :=
    map Py.strip
      (filter (fun s => Py.truthy s && Py.truthy (Py.strip s))
         (Re.split _SENTENCE_SEP_RE text)) in
  Forall (fun s => Py.strip s = s /\ ~ In 0x0A%N s /\ s <> []) cands
  /\ ((Py.strip text = [] /\ cands = [])
      \/ (Py.strip text <> [] /\ cands <> []
          /\ split_to_sentences text = cands)).
Proof.
  intros cands.
  destruct (Pieces_cuts (split_Pieces sentence_sep_matches text))
    as [Hsub Hcov].
  assert (Hc : Forall (fun s => Py.strip s = s /\ ~ In 0x0A%N s /\ s <> [])
                 cands).
  { unfold cands. apply Forall_map, Forall_forall. intros p Hp.
    apply filter_In in Hp as [Hp Ht].
    apply andb_true_iff in Ht as [_ Ht]. apply truthy_true in Ht.
    split; [apply strip_idem|]. split; [|exact Ht].
    intros H10. apply (@infix_In _ _ _ (strip_infix p)) in H10.
    pose proof (sentence_pieces_no_newline text) as Hn.
    rewrite Forall_forall in Hn. specialize (Hn p Hp).
    rewrite Forall_forall in Hn. now apply (Hn _ H10). }
  split; [exact Hc|].
  destruct (Py.strip text) as [|c t] eqn:E.
  - left. split; [reflexivity|].
    destruct cands as [|x xs] eqn:Ec; [reflexivity|]. exfalso.
    assert (Hx : In x cands) by (rewrite Ec; now left).
    unfold cands in Hx. apply in_map_iff in Hx as (p & <- & Hp).
    apply filter_In in Hp as [Hp Ht].
    apply andb_true_iff in Ht as [_ Ht]. apply truthy_true in Ht.
    destruct (Py.strip p) as [|d u] eqn:Ep; [congruence|].
    pose proof (strip_head _ Ep) as Hd.
    apply (@strip_nonempty text d); auto.
    apply (@infix_In _ _ d (Hsub p Hp)).
    apply (@infix_In _ _ d (strip_infix p)). rewrite Ep. now left.
  - right. split; [discriminate|].
    destruct (strip_solid_char text ltac:(rewrite E; discriminate))
      as (c' & Hs & Hi).
    destruct (Hcov _ Hs Hi) as (p & Hp & Hmp).
    assert (Hin : In (Py.strip p) cands).
    { unfold cands. apply in_map, filter_In. split; [exact Hp|].
      apply andb_true_iff.
      split; apply truthy_true; eapply solid_nonempty; eauto.
      now apply solid_in_strip. }
    unfold split_to_sentences. fold cands.
    destruct cands as [|x xs]; [contradiction|].
    split; [discriminate | reflexivity].
Qed.

(** X8.  [split_to_sentences] never returns the empty list; every sentence
    is a trimmed substring of the text without a line feed; and a sentence
    is empty only when the text is blank, in which case the result is the
    one empty sentence. *)
Theorem split_to_sentences_units text :
  split_to_sentences text <> []
  /\ Forall (fun s => infix s text /\ Py.strip s = s /\ ~ In 0x0A%N s)
       (split_to_sentences text)
  /\ ((Py.strip text = [] /\ split_to_sentences text = [[]])
      \/ (Py.strip text <> []
          /\ Forall (fun s => s <> []) (split_to_sentences text))).
Proof.
  destruct (sentence_candidates text) as [Hc [[Eb Ec] | (Hn & Hne & Es)]];
    cbv zeta in *.
  - assert (E : split_to_sentences text = [[]]).
    { unfold split_to_sentences. rewrite Ec, Eb. reflexivity. }
    rewrite E. split; [discriminate|]. split; [|left; auto].
    constructor; [|constructor].
    split; [now exists [], text|]. split; [reflexivity | intros []].
  - rewrite Es. split; [exact Hne|]. split; [|right; split; [exact Hn|]].
    + apply Forall_forall. intros s Hs. rewrite Forall_forall in Hc.
      destruct (Hc s Hs) as (H1 & H2 & _). repeat split; auto.
      apply sentence_infix. now rewrite Es.
    + eapply Forall_impl; [|exact Hc]. simpl. tauto.
Qed.

(** X9.  Every paragraph is a trimmed, non-empty substring of the text
    without a line feed, and there is no paragraph exactly when the text is
    blank. *)
Theorem split_to_paragraphs_units text :
  Forall (fun p => infix p text /\ Py.strip p = p /\ p <> []
                   /\ ~ In 0x0A%N p)
    (split_to_paragraphs text)
  /\ (split_to_paragraphs text = [] <-> Py.strip text = []).
Proof.
  destruct (paragraphs_cut text) as [Hsub Hcov]. split.
  - apply Forall_forall. intros p Hp.
    destruct (paragraph_units _ _ Hp) as [Hne Hs].
    repeat split; auto.
    assert (Hn : Forall (Forall (fun c => c <> 0x0A%N))
                   (split_to_paragraphs text)).
    { unfold split_to_paragraphs.
      destruct (length _ <=? 1)%nat; apply stripped_chars.
      - eapply Forall_impl;
          [|apply (@splitlines_from_chars (length text) text []);
            [lia | constructor]].
        intros l Hl. eapply Forall_impl; [|exact Hl].
        intros c. apply linebreak_newline.
      - apply paragraph_pieces_no_newline. }
    rewrite Forall_forall in Hn. specialize (Hn p Hp).
    rewrite Forall_forall in Hn. intros H10. now apply (Hn _ H10).
  - split.
    + intros E. destruct (Py.strip text) as [|c t] eqn:Es; [reflexivity|].
      destruct (strip_solid_char text ltac:(rewrite Es; discriminate))
        as (c' & Hc & Hi).
      destruct (Hcov _ Hc Hi) as (p & Hp & _). rewrite E in Hp. destruct Hp.
    + intros E. destruct (split_to_paragraphs text) as [|p ps] eqn:Ep;
        [reflexivity|]. exfalso.
      assert (Hp : In p (split_to_paragraphs text)) by (rewrite Ep; now left).
      destruct (paragraph_units _ _ Hp) as [Hne Hs].
      destruct p as [|c t]; [congruence|].
      pose proof (strip_head _ Hs) as Hc.
      apply (@strip_nonempty text c); auto.
      apply (@infix_In (c :: t) text c); [|now left].
      apply Hsub. now left.
Qed.

(** X10.  Segmentation never cuts through a word: a substring of the text
    without white space lies whole in one paragraph and whole in one
    sentence. *)
Theorem segments_keep_words text m :
  solid m -> infix m text ->
  (exists p, In p (split_to_paragraphs text) /\ infix m p)
  /\ (exists s, In s (split_to_sentences text) /\ infix m s).
Proof.
  intros Hm Hi. split.
  - now apply (proj2 (paragraphs_cut text)).
  - now apply (proj2 (sentences_cut text)).
Qed.

Lemma split_from_no_match (m : Re.matcher) s : forall prev skip cur,
  (forall a c b p, s = a ++ c :: b -> m p (c :: b) = None) ->
  Re.split_from m prev skip cur s = [rev cur ++ skipn skip s].
Proof.
  induction s as [|c t IH]; intros prev skip cur H.
  - simpl. destruct skip; simpl; now rewrite app_nil_r.
  - cbn [Re.split_from]. destruct skip as [|k].
    + rewrite (H [] c t prev eq_refl). rewrite IH.
      * simpl. now rewrite <- app_assoc.
      * intros a c' b p ->. apply (H (c :: a) c' b p). reflexivity.
    + rewrite IH; [reflexivity|].
      intros a c' b p ->. apply (H (c :: a) c' b p). reflexivity.
Qed.

Lemma splitlines_from_one_line s : forall cur,
  Forall (fun c => Py.islinebreak c = false) s ->
  Py.splitlines_from cur s
  = match rev cur ++ s with [] => [] | l => [l] end.
Proof.
  induction s as [|c t IH]; intros cur H.
  - simpl. rewrite app_nil_r. destruct cur as [|x xs]; [reflexivity|].
    destruct (rev (x :: xs)) eqn:E; [|reflexivity].
    apply (f_equal (@length _)) in E. rewrite length_rev in E. discriminate.
  - inversion H as [|? ? Hc Ht]; subst. cbn [Py.splitlines_from].
    rewrite Hc, IH by exact Ht. simpl. now rewrite <- app_assoc.
Qed.

(** X11.  A text without a line boundary is one paragraph, the trimmed text
    itself, and a blank one has no paragraph. *)
Theorem split_to_paragraphs_one_line text :
  Forall (fun c => Py.islinebreak c = false) text ->
  split_to_paragraphs text
  = if Py.truthy (Py.strip text) then [Py.strip text] else [].
Proof.
  intros H. unfold split_to_paragraphs.
  assert (E : Re.split _PARAGRAPH_SEP_RE text = [text]).
  { unfold Re.split. rewrite split_from_no_match; [reflexivity|].
    intros a c b p ->. apply Forall_app in H as [_ H].
    inversion H as [|? ? Hc _]; subst. unfold _PARAGRAPH_SEP_RE.
    cbn [Re.run crlf_run]. unfold is_newline.
    destruct (c =? 10)%N eqn:E10.
    { apply N.eqb_eq in E10. subst. discriminate. }
    destruct (c =? 13)%N eqn:E13.
    { apply N.eqb_eq in E13. subst. discriminate. }
    reflexivity. }
  rewrite E. unfold Py.splitlines.
  rewrite splitlines_from_one_line by exact H. simpl rev. simpl app.
  unfold stripped_nonblank. destruct text as [|c t]; [reflexivity|].
  cbn [filter].
  destruct (Py.truthy (Py.strip (c :: t))) eqn:Et; reflexivity.
Qed.

(** ** Keywords for any threshold *)

Lemma filter_unseen (l : list str) : filter (fun y => negb (mem y [])) l = l.
Proof. induction l as [|y u IHu]; simpl; [reflexivity | f_equal; exact IHu]. Qed.

Lemma keywords_unfold query min_len :
  keywords_from_query query min_len
  = dedup_first
      (filter (fun t => Py.truthy t && (min_len <=? Z.of_nat (length t))%Z
                        && negb (mem t _HE_STOPWORDS))
         (Re.split (Re.plus is_separator) (normalize_hebrew query))).
Proof.
  unfold keywords_from_query. rewrite dedup_loop. simpl. apply filter_unseen.
Qed.

Lemma plus_matches_class cls :
  matches_only (Re.plus cls) (fun sep => sep_only cls sep /\ sep <> []).
Proof.
  intros prev s n. unfold Re.plus.
  destruct (run_spec cls s) as [H1 H2].
  destruct (Re.run cls s) as [|k] eqn:E; [discriminate|].
  intros [= <-]. split; [exact H1|]. split; [exact H2|].
  now apply firstn_S_nonempty.
Qed.

Lemma normalized_no_niqqud text c :
  In c (normalize_hebrew text) -> is_niqqud c = false.
Proof.
  intros H. destruct (normalized_shape text) as [Hc _].
  rewrite Forall_forall in Hc. now destruct (Hc c H).
Qed.

Lemma keywords_In query min_len kw :
  In kw (keywords_from_query query min_len)
  <-> In kw (tokens_of [] (normalize_hebrew query))
      /\ (min_len <= Z.of_nat (length kw))%Z
      /\ ~ In kw _HE_STOPWORDS.
Proof.
  rewrite keywords_unfold, dedup_first_In, filter_In, <- split_tokens,
    filter_In, !andb_true_iff, Z.leb_le, negb_true_iff, mem_false.
  tauto.
Qed.

(** X12.  For every threshold, also zero or a negative one, the keywords are
    exactly the tokens of the normalized query that reach the threshold and
    are no stop-word, each listed once; a keyword is never empty, has no
    separator character and no niqqud, and occurs in the normalized
    query. *)
Theorem keywords_from_query_sound query min_len :
  NoDup (keywords_from_query query min_len)
  /\ (forall kw,
        In kw (keywords_from_query query min_len)
        <-> In kw (tokens_of [] (normalize_hebrew query))
            /\ (min_len <= Z.of_nat (length kw))%Z
            /\ ~ In kw _HE_STOPWORDS)
  /\ Forall (fun kw =>
               kw <> []
               /\ Forall (fun c => is_separator c = false
                                   /\ is_niqqud c = false) kw
               /\ infix kw (normalize_hebrew query))
       (keywords_from_query query min_len).
Proof.
  split; [rewrite keywords_unfold; apply dedup_first_NoDup|].
  split; [intros kw; apply keywords_In|].
  apply Forall_forall. intros kw Hkw.
  destruct (keywords_solid _ _ _ Hkw) as [Hne Hsep].
  assert (Hi : infix kw (normalize_hebrew query)).
  { rewrite keywords_unfold, dedup_first_In, filter_In in Hkw.
    destruct Hkw as [Hkw _].
    eapply Pieces_infix; [|exact Hkw].
    apply split_Pieces, plus_matches_class. }
  repeat split; auto.
  apply Forall_forall. intros c Hc. split.
  - rewrite Forall_forall in Hsep. now apply Hsep.
  - apply (@normalized_no_niqqud query). exact (@infix_In _ _ c Hi Hc).
Qed.

Lemma filter_comm {A} (f g : A -> bool) l :
  filter f (filter g l) = filter g (filter f l).
Proof.
  induction l as [|x t IH]; simpl; [reflexivity|].
  destruct (f x) eqn:Ef, (g x) eqn:Eg; simpl; rewrite ?Ef, ?Eg, IH;
    reflexivity.
Qed.

Lemma filter_and {A} (f g : A -> bool) l :
  filter (fun x => f x && g x) l = filter f (filter g l).
Proof.
  induction l as [|x t IH]; simpl; [reflexivity|].
  destruct (g x) eqn:Eg; simpl; rewrite ?andb_true_r, ?andb_false_r.
  - destruct (f x); now rewrite IH.
  - exact IH.
Qed.

Lemma filter_other (f : str -> bool) x l :
  f x = false ->
  filter f (filter (fun y => if str_eq_dec y x then false else true) l)
  = filter f l.
Proof.
  intros Hx. induction l as [|y t IH]; simpl; [reflexivity|].
  destruct (str_eq_dec y x) as [-> | Hn]; simpl.
  - now rewrite Hx.
  - now rewrite IH.
Qed.

Lemma dedup_first_filter (f : str -> bool) l :
  dedup_first (filter f l) = filter f (dedup_first l).
Proof.
  induction l as [|x t IH]; simpl; [reflexivity|].
  destruct (f x) eqn:Ex; simpl.
  - rewrite IH. f_equal. apply filter_comm.
  - rewrite IH. symmetry. now apply filter_other.
Qed.

(** X13.  Raising the threshold only removes keywords: the keywords for a
    larger [min_len] are those for a smaller one that reach the larger
    threshold, in the same order. *)
Theorem keywords_from_query_threshold query m m' :
  (m <= m')%Z ->
  keywords_from_query query m'
  = filter (fun t => (m' <=? Z.of_nat (length t))%Z)
      (keywords_from_query query m).
Proof.
  intros Hm. rewrite !keywords_unfold, <- dedup_first_filter, <- filter_and.
  f_equal. apply filter_ext. intros t.
  destruct (Z.leb_spec m' (Z.of_nat (length t))) as [H | H]; simpl.
  - replace (m <=? Z.of_nat (length t))%Z with true
      by (symmetry; apply Z.leb_le; lia).
    reflexivity.
  - now rewrite andb_false_r.
Qed.

Lemma filter_twice {A} (f : A -> bool) l : filter f (filter f l) = filter f l.
Proof.
  induction l as [|x t IH]; simpl; [reflexivity|].
  destruct (f x) eqn:E; simpl; rewrite ?E, IH; reflexivity.
Qed.

(** X14.  The keywords do not depend on how the query is pointed or spaced:
    the query without its niqqud, and the normalized query, give the
    keywords of the query itself. *)
Theorem keywords_from_query_spelling query min_len :
  keywords_from_query (filter (fun c => negb (is_niqqud c)) query) min_len
  = keywords_from_query query min_len
  /\ keywords_from_query (normalize_hebrew query) min_len
     = keywords_from_query query min_len.
Proof.
  split; unfold keywords_from_query.
  - now rewrite (normalize_unfold (filter _ query)), filter_twice,
      <- normalize_unfold.
  - now rewrite normalize_fixed.
Qed.

(** ** Scores of the keywords of a query *)

(** X15.  White space and niqqud of a segment never decide a hit: the score
    of a segment for the keywords of a query is the number of keywords that
    occur in the segment with its niqqud removed. *)
Theorem score_ignores_layout query min_len seg :
  score_of (keywords_from_query query min_len) seg
  = length
      (filter
         (fun kw => Py.contains kw (filter (fun c => negb (is_niqqud c)) seg))
         (keywords_from_query query min_len)).
Proof.
  unfold score_of. rewrite match_score_filter. f_equal.
  apply filter_ext_in. intros kw Hkw. unfold hit.
  pose proof (keywords_space_free _ _ _ Hkw) as Hs.
  assert (Ht : Py.truthy kw = true) by (apply truthy_true; apply Hs).
  rewrite Ht. simpl.
  destruct (Py.contains kw (normalize_hebrew seg)) eqn:E1;
    destruct (Py.contains kw (filter _ seg)) eqn:E2; auto.
  - apply contains_spec, (normalize_solid seg Hs), contains_spec in E1.
    congruence.
  - apply contains_spec, (normalize_solid seg Hs), contains_spec in E2.
    congruence.
Qed.

(** ** The sentence pass *)

(** X16.  The pass over the sentences never finds anything: for the
    keywords of a query, whatever the threshold, [best_sent] stays [None],
    because a document without a hit in a paragraph has no hit in a
    sentence either. *)
Theorem sentence_pass_never_hits query min_len content :
  snd (fst (best_segments (keywords_from_query query min_len) content))
  = None
  /\ (no_hit (keywords_from_query query min_len)
        (split_to_paragraphs content) ->
      no_hit (keywords_from_query query min_len)
        (split_to_sentences content)).
Proof.
  split.
  - destruct (raw_snippet_cases query min_len content)
      as [(s & _ & _ & E & _) | (_ & _ & E & _)]; cbv zeta in E;
      now rewrite E.
  - apply no_hit_sentences, Forall_forall. intros kw.
    apply keywords_space_free.
Qed.

(** ** The snippet and its limit *)

Lemma slice_infix (l : str) lo hi : infix (Py.slice l lo hi) l.
Proof.
  unfold Py.slice. cbv zeta.
  set (k := Z.to_nat (_ - _)). set (a := Z.to_nat _).
  exists (firstn a l), (skipn k (skipn a l)).
  rewrite (firstn_skipn k (skipn a l)). symmetry. apply firstn_skipn.
Qed.

Lemma firstn_infix (l : str) k : infix (firstn k l) l.
Proof. exists [], (skipn k l). simpl. now rewrite firstn_skipn. Qed.

Lemma rstrip_infix s : infix (Py.rstrip s) s.
Proof.
  destruct (rstrip_decomp s) as (trail & E & _).
  exists [], trail. simpl. exact E.
Qed.

Lemma raw_snippet_paragraph query min_len content seg :
  raw_snippet (keywords_from_query query min_len) content = Some seg ->
  In seg (split_to_paragraphs content)
  /\ (0 < score_of (keywords_from_query query min_len) seg)%nat.
Proof.
  intros E.
  destruct (raw_snippet_cases query min_len content)
    as [(s & Hf & Hpos & _ & Er) | (_ & _ & _ & Er)]; cbv zeta in *.
  - rewrite Er in E. injection E as <-. split; [|exact Hpos].
    eapply first_best_In; eauto.
  - rewrite Er in E. discriminate.
Qed.

Lemma slice_to_negative {A} (l : list A) (m : Z) :
  (m < 0)%Z -> Py.slice_to l m = firstn (length l - Z.to_nat (- m)) l.
Proof.
  intros Hm. unfold Py.slice_to, Py.slice, Py.clip.
  change (0 <? 0)%Z with false. cbv iota.
  destruct (Z.ltb_spec m 0); [|lia].
  replace (Z.to_nat (Z.min 0 (Z.of_nat (length l)))) with O by lia.
  simpl skipn. f_equal. lia.
Qed.

Lemma shorten_cases seg maxc :
  Py.strip seg = seg -> seg <> [] ->
  ((Z.of_nat (length seg) <= maxc)%Z /\ shorten seg maxc = seg)
  \/ ((0 <= maxc < Z.of_nat (length seg))%Z
      /\ shorten seg maxc
         = Py.rstrip (firstn (Z.to_nat maxc) seg) ++ ellipsis
      /\ (length (shorten seg maxc) <= Z.to_nat maxc + 1)%nat)
  \/ ((maxc < 0)%Z
      /\ shorten seg maxc
         = Py.rstrip (firstn (length seg - Z.to_nat (- maxc)) seg)
           ++ ellipsis).
Proof.
  intros Hs Hne. unfold shorten. rewrite Hs.
  destruct (Z.ltb_spec maxc (Z.of_nat (length seg))) as [Hlt | Hge];
    [|left; now split].
  right. destruct (Z.ltb_spec maxc 0) as [Hneg | Hpos].
  - right. split; [exact Hneg|]. now rewrite slice_to_negative.
  - left. split; [lia|]. rewrite slice_to_firstn by exact Hpos.
    split; [reflexivity|].
    rewrite length_app. change (length ellipsis) with 1%nat.
    pose proof (rstrip_length (firstn (Z.to_nat maxc) seg)) as H1.
    pose proof (firstn_le_length (Z.to_nat maxc) seg) as H2.
    rewrite length_firstn in H1. lia.
Qed.

Section Snippets.

Variable uni_decimal : char -> bool.
Variable uni_word : char -> bool.

(** X17.  The snippet for every limit.  It is cut from a paragraph of the
    document: the whole paragraph when the limit allows it; otherwise the
    first [max_snippet_chars] characters, trimmed at the right, and the
    ellipsis.  The limit zero leaves the ellipsis alone, and a negative
    limit cuts that many characters off the end of the paragraph and still
    adds the ellipsis. *)
Theorem snippet_for_every_limit q d maxc s r :
  best_snippet_for_query_in_doc uni_decimal uni_word q d maxc = Some (s, r) ->
  exists seg,
    In seg (split_to_paragraphs (content d))
    /\ (((Z.of_nat (length seg) <= maxc)%Z /\ s = seg)
        \/ ((0 <= maxc < Z.of_nat (length seg))%Z
            /\ s = Py.rstrip (firstn (Z.to_nat maxc) seg) ++ ellipsis
            /\ (length s <= Z.to_nat maxc + 1)%nat
            /\ (maxc = 0%Z -> s = ellipsis))
        \/ ((maxc < 0)%Z
            /\ s = Py.rstrip (firstn (length seg - Z.to_nat (- maxc)) seg)
                   ++ ellipsis)).
Proof.
  rewrite best_snippet_eq.
  destruct (raw_snippet _ _) as [seg|] eqn:E; [|discriminate].
  simpl. intros [= <- <-].
  destruct (raw_snippet_paragraph _ _ _ E) as [Hp _].
  destruct (paragraph_units _ _ Hp) as [Hne Hs].
  exists seg. split; [exact Hp|].
  destruct (shorten_cases maxc Hs Hne)
    as [[H1 H2] | [(H1 & H2 & H3) | [H1 H2]]].
  - left. now split.
  - right. left. repeat split; try tauto.
    intros ->. rewrite H2. reflexivity.
  - right. right. now split.
Qed.

(** A record of [retrieve] belongs to the batch of one of the queries. *)
Lemma retrieve_In input_data m r :
  In r (retrieve uni_decimal uni_word input_data m) ->
  exists q, In q (criteria_queries input_data)
            /\ In r (batch uni_decimal uni_word
                       (criteria_documents input_data) m q).
Proof.
  rewrite retrieve_eq, in_flat_map. intros (q & Hq & Hr). now exists q.
Qed.

(** X18.  A record other than the sentinel quotes its document: its text is
    a substring of a paragraph of the cited document, followed by the
    ellipsis if the paragraph was cut, and that paragraph contains, after
    normalization, a keyword of one of the queries. *)
Theorem retrieved_text_quotes_document input_data m r :
  In r (retrieve uni_decimal uni_word input_data m) ->
  r = not_found
  \/ exists q d seg kw body,
       In q (criteria_queries input_data)
       /\ In d (criteria_documents input_data)
       /\ source_id r = id d
       /\ In seg (split_to_paragraphs (content d))
       /\ infix seg (content d)
       /\ In kw (keywords_from_query q 2)
       /\ infix kw (normalize_hebrew seg)
       /\ infix body seg
       /\ (text r = body \/ text r = body ++ ellipsis).
Proof.
  intros Hr. apply retrieve_In in Hr as (q & Hq & Hr).
  apply batch_In in Hr as [-> | (d & seg & Hd & Er & Hp & ->)];
    [now left | right].
  destruct (raw_snippet_paragraph _ _ _ Er) as [_ Hpos].
  apply match_score_pos in Hpos as (kw & Hkw & _ & Hi).
  destruct (paragraph_units _ _ Hp) as [Hne Hs].
  assert (Hb : exists body,
             infix body seg
             /\ (shorten seg 700 = body \/ shorten seg 700 = body ++ ellipsis)).
  { destruct (shorten_cases 700 Hs Hne)
      as [[_ H2] | [(_ & H2 & _) | [H1 _]]]; [| |lia].
    - exists seg. split; [apply infix_refl | now left].
    - exists (Py.rstrip (firstn (Z.to_nat 700) seg)). split; [|now right].
      eapply infix_trans; [apply rstrip_infix | apply firstn_infix]. }
  destruct Hb as (body & Hb1 & Hb2).
  exists q, d, seg, kw, body. repeat split; auto.
  apply (proj1 (paragraphs_cut (content d))). exact Hp.
Qed.

Lemma section_lookup_shape content seg ref :
  infix seg content ->
  section_lookup uni_decimal uni_word content seg = Some ref ->
  infix ref content
  /\ exists ws ds lab,
       ref = seif ++ ws ++ ds ++ lab
       /\ ws <> [] /\ blank_only ws
       /\ ds <> [] /\ sep_only uni_decimal ds
       /\ sep_only (is_label_char uni_word) lab.
Proof.
  intros Hseg. unfold section_lookup.
  assert (H : forall t, infix t content ->
                extract_section_ref uni_decimal uni_word t = Some ref ->
                infix ref content
                /\ exists ws ds lab,
                     ref = seif ++ ws ++ ds ++ lab
                     /\ ws <> [] /\ blank_only ws
                     /\ ds <> [] /\ sep_only uni_decimal ds
                     /\ sep_only (is_label_char uni_word) lab).
  { intros t Ht E.
    destruct (@search_section_shape _ _ _ _ E)
      as (pre & post & ws & ds & lab & Et & Er & H1 & H2 & H3 & H4 & H5 & _).
    split.
    - eapply infix_trans; [|exact Ht]. now exists pre, post.
    - now exists ws, ds, lab. }
  destruct (extract_section_ref uni_decimal uni_word seg) as [r0|] eqn:E0.
  - intros [= <-]. now apply (H seg).
  - destruct (Py.index content seg) as [idx|]; [|discriminate].
    apply H. apply slice_infix.
Qed.

(** X19.  A section label is never made up: the label of a record is a
    substring of the cited document, and it is the word for section, white
    space, decimal digits and then characters of the label class. *)
Theorem retrieved_label_from_document input_data m r ref :
  In r (retrieve uni_decimal uni_word input_data m) ->
  section_ref r = Some ref ->
  exists d ws ds lab,
    In d (criteria_documents input_data)
    /\ source_id r = id d
    /\ infix ref (content d)
    /\ ref = seif ++ ws ++ ds ++ lab
    /\ ws <> [] /\ blank_only ws
    /\ ds <> [] /\ sep_only uni_decimal ds
    /\ sep_only (is_label_char uni_word) lab.
Proof.
  intros Hr Href. apply retrieve_In in Hr as (q & Hq & Hr).
  apply batch_In in Hr as [-> | (d & seg & Hd & Er & Hp & ->)];
    [discriminate|].
  simpl in Href.
  destruct (@section_lookup_shape (content d) seg ref) as (Hi & ws & ds & lab & H);
    [apply (proj1 (paragraphs_cut (content d))); exact Hp | exact Href |].
  exists d, ws, ds, lab. repeat split; tauto.
Qed.

(** X20.  A label inside the chosen paragraph wins: when the paragraph
    itself carries a label the citation is the first label of the
    paragraph, whatever the text around the paragraph holds. *)
Theorem inline_label_preferred q d maxc seg ref :
  raw_snippet (keywords_from_query q 2) (content d) = Some seg ->
  extract_section_ref uni_decimal uni_word seg = Some ref ->
  best_snippet_for_query_in_doc uni_decimal uni_word q d maxc
  = Some (shorten seg maxc, Some ref)
  /\ infix ref seg.
Proof.
  intros Er E. rewrite best_snippet_eq, Er. simpl.
  unfold section_lookup. rewrite E. split; [reflexivity|].
  destruct (@search_section_shape _ _ _ _ E)
    as (pre & post & _ & _ & _ & Et & _).
  now exists pre, post.
Qed.

End Snippets.

(** ** The window around a paragraph *)

Lemma window_split (pre p t : str) a k :
  (a <= length pre)%nat -> (length pre - a + length p <= k)%nat ->
  firstn k (skipn a (pre ++ p ++ t))
  = skipn a pre ++ p ++ firstn (k - (length pre - a) - length p) t.
Proof.
  intros Ha Hk. rewrite skipn_app.
  replace (a - length pre)%nat with O by lia. simpl skipn.
  rewrite firstn_app, length_skipn.
  rewrite (firstn_all2 (skipn a pre)) by (rewrite length_skipn; lia).
  f_equal. rewrite firstn_app.
  rewrite (firstn_all2 p) by lia. reflexivity.
Qed.

(** X21.  The window of the label search holds the paragraph, is a
    substring of the document and reaches at most 400 characters to either
    side of the paragraph; it is the whole document when the document ends
    within 400 characters on both sides. *)
Theorem window_bounds content p idx :
  Py.index content p = Some idx ->
  infix p (window content p idx)
  /\ infix (window content p idx) content
  /\ (length (window content p idx) <= length p + 800)%nat
  /\ ((idx <= 400)%nat -> (length content <= idx + length p + 400)%nat ->
      window content p idx = content).
Proof.
  intros Hi. apply index_sound in Hi as (t & E & Hle).
  remember (firstn idx content) as pre eqn:Epre.
  assert (Hpre : length pre = idx)
    by (subst pre; rewrite length_firstn; lia).
  clear Epre Hle. subst content.
  assert (Hn : length (pre ++ p ++ t) = (idx + length p + length t)%nat)
    by (rewrite !length_app; lia).
  split; [|split; [apply slice_infix|split]].
  - unfold window, Py.slice, Py.clip. rewrite Hn.
    destruct (Z.ltb_spec (Z.max 0 (Z.of_nat idx - 400)) 0); [lia|].
    destruct (Z.ltb_spec (Z.of_nat idx + Z.of_nat (length p) + 400) 0);
      [lia|].
    set (k := Z.to_nat (_ - _)). set (a := Z.to_nat _).
    rewrite window_split.
    + now exists (skipn a pre),
        (firstn (k - (length pre - a) - length p) t).
    + unfold a. lia.
    + unfold k, a. lia.
  - unfold window, Py.slice, Py.clip. rewrite Hn.
    destruct (Z.ltb_spec (Z.max 0 (Z.of_nat idx - 400)) 0); [lia|].
    destruct (Z.ltb_spec (Z.of_nat idx + Z.of_nat (length p) + 400) 0);
      [lia|].
    rewrite length_firstn. lia.
  - intros H1 H2. unfold window, Py.slice, Py.clip. rewrite Hn in *.
    destruct (Z.ltb_spec (Z.max 0 (Z.of_nat idx - 400)) 0); [lia|].
    destruct (Z.ltb_spec (Z.of_nat idx + Z.of_nat (length p) + 400) 0);
      [lia|].
    replace (Z.to_nat (Z.min (Z.max 0 (Z.of_nat idx - 400))
                         (Z.of_nat (idx + length p + length t)))) with O
      by lia.
    simpl skipn. apply firstn_all2. rewrite Hn. lia.
Qed.

(** ** Quotas, queries and documents in [retrieve] *)

Lemma flat_map_ext_in {A B} (f g : A -> list B) l :
  (forall x, In x l -> f x = g x) -> flat_map f l = flat_map g l.
Proof.
  induction l as [|x t IH]; intros H; simpl; [reflexivity|].
  rewrite (H x (or_introl eq_refl)), IH; [reflexivity|].
  intros y Hy. apply H. now right.
Qed.

Lemma flat_map_singleton {A B} (f : A -> B) l :
  flat_map (fun x => [f x]) l = map f l.
Proof. induction l as [|x t IH]; simpl; [reflexivity | now rewrite IH]. Qed.

Section Quota.

Variable uni_decimal : char -> bool.
Variable uni_word : char -> bool.

Lemma matches_candidate q d :
  (matches uni_decimal uni_word q d = false
   /\ to_candidate uni_decimal uni_word q d = [])
  \/ (exists s ref,
        matches uni_decimal uni_word q d = true
        /\ best_snippet_for_query_in_doc uni_decimal uni_word q d 700
           = Some (s, ref)
        /\ to_candidate uni_decimal uni_word q d = [(id d, s, ref)]).
Proof.
  unfold matches, to_candidate.
  destruct (best_snippet_for_query_in_doc _ _ q d 700) as [[s ref]|];
    [right; now exists s, ref | now left].
Qed.

Lemma candidates_first docs q :
  match candidates_of uni_decimal uni_word docs q with
  | [] => find (matches uni_decimal uni_word q) docs = None
  | c :: _ =>
      exists d s ref,
        find (matches uni_decimal uni_word q) docs = Some d
        /\ best_snippet_for_query_in_doc uni_decimal uni_word q d 700
           = Some (s, ref)
        /\ c = (id d, s, ref)
  end.
Proof.
  unfold candidates_of. induction docs as [|d t IH]; simpl; [reflexivity|].
  destruct (matches_candidate q d) as [[Em Ec] | (s & ref & Em & Eb & Ec)];
    rewrite Ec, Em; simpl; [exact IH|].
  now exists d, s, ref.
Qed.

Lemma candidates_nil docs q :
  candidates_of uni_decimal uni_word docs q = []
  <-> unmatched uni_decimal uni_word docs q = true.
Proof.
  unfold candidates_of, unmatched.
  induction docs as [|d t IH]; simpl; [tauto|].
  destruct (matches_candidate q d) as [[Em Ec] | (s & ref & Em & Eb & Ec)];
    rewrite Ec, Em; simpl; [exact IH|].
  split; discriminate.
Qed.

Lemma candidates_sources docs q :
  map (fun c => fst (fst c)) (candidates_of uni_decimal uni_word docs q)
  = map id (filter (matches uni_decimal uni_word q) docs).
Proof.
  unfold candidates_of. induction docs as [|d t IH]; simpl; [reflexivity|].
  destruct (matches_candidate q d) as [[Em Ec] | (s & ref & Em & Eb & Ec)];
    rewrite Ec, Em; simpl; [exact IH | now rewrite IH].
Qed.

Lemma batch_one docs q :
  batch uni_decimal uni_word docs 1 q = [answer uni_decimal uni_word docs q].
Proof.
  unfold batch, answer. pose proof (candidates_first docs q) as H.
  destruct (candidates_of uni_decimal uni_word docs q) as [|c cs].
  - now rewrite H.
  - destruct H as (d & s & ref & Ef & Eb & ->). rewrite Ef, Eb.
    rewrite slice_to_firstn by lia. reflexivity.
Qed.

(** X22.  With the default [max_per_query] of one, [retrieve] answers every
    query with exactly one record, in the order of the queries: the record
    of the first document of the input where the query matches, whatever
    the later documents score, or the sentinel when no document matches. *)
Theorem retrieve_default_one_per_query input_data :
  retrieve uni_decimal uni_word input_data 1
  = map (answer uni_decimal uni_word (criteria_documents input_data))
      (criteria_queries input_data)
  /\ length (retrieve uni_decimal uni_word input_data 1)
     = length (criteria_queries input_data).
Proof.
  assert (E : retrieve uni_decimal uni_word input_data 1
              = map (answer uni_decimal uni_word
                       (criteria_documents input_data))
                  (criteria_queries input_data)).
  { rewrite retrieve_eq, <- flat_map_singleton. apply flat_map_ext_in.
    intros q _. apply batch_one. }
  split; [exact E | now rewrite E, length_map].
Qed.

Lemma batch_zero docs q :
  batch uni_decimal uni_word docs 0 q
  = if unmatched uni_decimal uni_word docs q then [not_found] else [].
Proof.
  unfold batch. pose proof (candidates_nil docs q) as H.
  destruct (candidates_of uni_decimal uni_word docs q) as [|c cs].
  - now rewrite (proj1 H eq_refl).
  - destruct (unmatched uni_decimal uni_word docs q); [|reflexivity].
    destruct H as [_ H]. specialize (H eq_refl). discriminate.
Qed.

Lemma sentinel_only (f : str -> bool) queries :
  flat_map (fun q => if f q then [not_found] else []) queries
  = map (fun _ => not_found) (filter f queries).
Proof.
  induction queries as [|q t IH]; simpl; [reflexivity|].
  destruct (f q); simpl; now rewrite IH.
Qed.

(** X23.  A quota that is not positive is taken as a slice bound.  With
    [max_per_query] zero a query that matches contributes no record at all,
    so the output holds one sentinel for every query without a match and
    nothing else; with a negative quota, minus [k + 1], the last [k + 1]
    records of a batch are dropped. *)
Theorem retrieve_nonpositive_quota input_data :
  retrieve uni_decimal uni_word input_data 0
  = map (fun _ => not_found)
      (filter (unmatched uni_decimal uni_word
                 (criteria_documents input_data))
         (criteria_queries input_data))
  /\ forall k,
       retrieve uni_decimal uni_word input_data (- Z.of_nat (S k))
       = flat_map
           (fun q =>
              match candidates_of uni_decimal uni_word
                      (criteria_documents input_data) q with
              | [] => [not_found]
              | cands => map to_section (firstn (length cands - S k) cands)
              end)
           (criteria_queries input_data).
Proof.
  split.
  - rewrite retrieve_eq, <- sentinel_only. apply flat_map_ext_in.
    intros q _. apply batch_zero.
  - intros k. rewrite retrieve_eq. apply flat_map_ext_in.
    intros q _. unfold batch.
    destruct (candidates_of uni_decimal uni_word _ q) as [|c cs];
      [reflexivity|].
    rewrite slice_to_negative by lia. do 2 f_equal. lia.
Qed.

(** X24.  Queries are answered one by one: the output for two lists of
    queries put together is the output for the first list followed by the
    output for the second. *)
Theorem retrieve_queries_independent qs1 qs2 docs m :
  retrieve uni_decimal uni_word (mkInput (qs1 ++ qs2) docs) m
  = retrieve uni_decimal uni_word (mkInput qs1 docs) m
    ++ retrieve uni_decimal uni_word (mkInput qs2 docs) m.
Proof. rewrite !retrieve_eq. simpl. apply flat_map_app. Qed.

Lemma candidates_relevant queries docs q :
  In q queries ->
  candidates_of uni_decimal uni_word
    (filter (relevant uni_decimal uni_word queries) docs) q
  = candidates_of uni_decimal uni_word docs q.
Proof.
  intros Hq. unfold candidates_of.
  induction docs as [|d t IH]; simpl; [reflexivity|].
  destruct (relevant uni_decimal uni_word queries d) eqn:Er; simpl;
    [now rewrite IH|].
  rewrite IH.
  destruct (matches_candidate q d) as [[_ Ec] | (s & ref & Em & _)];
    [now rewrite Ec|].
  exfalso. unfold relevant in Er.
  assert (H : existsb (fun q0 => matches uni_decimal uni_word q0 d) queries
              = true) by (apply existsb_exists; now exists q).
  congruence.
Qed.

(** X25.  A document where no query matches has no influence: leaving such
    documents out of the input leaves the output as it is. *)
Theorem retrieve_ignores_unmatched_documents input_data m :
  retrieve uni_decimal uni_word
    (mkInput (criteria_queries input_data)
       (filter (relevant uni_decimal uni_word (criteria_queries input_data))
          (criteria_documents input_data))) m
  = retrieve uni_decimal uni_word input_data m.
Proof.
  rewrite !retrieve_eq. simpl. apply flat_map_ext_in. intros q Hq.
  unfold batch. now rewrite candidates_relevant.
Qed.

Lemma section_sources cs :
  map source_id (map to_section cs)
  = map (fun c : str * str * option str => fst (fst c)) cs.
Proof.
  induction cs as [|[[i s] r] t IH]; simpl; [reflexivity | now rewrite IH].
Qed.

(** X26.  For a query that matches, the records of its batch cite the first
    [max_per_query] documents where it matches, in the order of the input
    and without any ranking between the documents. *)
Theorem batch_cites_first_matches docs m q :
  (1 <= m)%Z ->
  unmatched uni_decimal uni_word docs q = false ->
  map source_id (batch uni_decimal uni_word docs m q)
  = firstn (Z.to_nat m)
      (map id (filter (matches uni_decimal uni_word q) docs)).
Proof.
  intros Hm Hu. rewrite <- candidates_sources. unfold batch.
  destruct (candidates_of uni_decimal uni_word docs q) as [|c cs] eqn:E.
  - apply candidates_nil in E. congruence.
  - rewrite slice_to_firstn by lia.
    now rewrite section_sources, firstn_map.
Qed.

Lemma flat_map_length_bounds {A B} (f : A -> list B) lo hi l :
  (forall x, In x l -> (lo <= length (f x) <= hi)%nat) ->
  (length l * lo <= length (flat_map f l) <= length l * hi)%nat.
Proof.
  induction l as [|x t IH]; intros H; simpl; [lia|].
  rewrite length_app.
  pose proof (H x (or_introl eq_refl)) as Hx.
  assert (Ht : forall y, In y t -> (lo <= length (f y) <= hi)%nat)
    by (intros y Hy; apply H; now right).
  specialize (IH Ht). lia.
Qed.

(** X27.  With a quota of at least one every query contributes between one
    record and [max_per_query] records, so the output has at least as many
    records as there are queries and at most [max_per_query] times as many;
    for a constructed input it is never empty. *)
Theorem retrieve_size input_data m :
  (1 <= m)%Z ->
  (length (criteria_queries input_data)
   <= length (retrieve uni_decimal uni_word input_data m)
   <= length (criteria_queries input_data) * Z.to_nat m)%nat
  /\ (valid_input input_data ->
      retrieve uni_decimal uni_word input_data m <> []).
Proof.
  intros Hm.
  assert (Hb : (length (criteria_queries input_data) * 1
                <= length (retrieve uni_decimal uni_word input_data m)
                <= length (criteria_queries input_data) * Z.to_nat m)%nat).
  { rewrite retrieve_eq. apply flat_map_length_bounds. intros q _.
    destruct (@batch_length uni_decimal uni_word
                (criteria_documents input_data) m q Hm)
      as [[_ E] | (Hn & _ & E)]; cbv zeta in *.
    - rewrite E. simpl. lia.
    - rewrite E. lia. }
  split; [lia|].
  intros (Hq & _) E. rewrite E in Hb. simpl in Hb.
  destruct (criteria_queries input_data); [congruence | simpl in Hb; lia].
Qed.

End Quota.

(** ** Citations *)

Lemma index_first s sub : forall i,
  Py.index s sub = Some i ->
  forall j, (j < i)%nat -> Py.startswith sub (skipn j s) = false.
Proof.
  induction s as [|c t IH]; intros i H j Hj; cbn [Py.index] in H.
  - destruct (Py.startswith sub []); [injection H as <-; lia | discriminate].
  - destruct (Py.startswith sub (c :: t)) eqn:E; [injection H as <-; lia|].
    destruct (Py.index t sub) as [k|] eqn:Ek; [|discriminate].
    simpl in H. injection H as <-.
    destruct j as [|j]; [exact E|]. simpl. apply (IH k eq_refl). lia.
Qed.

Lemma firstn_min {A} (l : list A) n :
  firstn (Nat.min n (length l)) l = firstn n l.
Proof.
  destruct (Nat.le_ge_cases n (length l)) as [H | H].
  - now rewrite Nat.min_l.
  - rewrite Nat.min_r by exact H. rewrite firstn_all.
    symmetry. now apply firstn_all2.
Qed.

(** The window around a paragraph at the end of [before]: the last 400
    characters of [before], the paragraph, the first 400 characters of
    [after]. *)
Lemma window_explicit (before seg after : str) :
  window (before ++ seg ++ after) seg (length before)
  = skipn (length before - 400) before ++ seg ++ firstn 400 after.
Proof.
  unfold window, Py.slice, Py.clip. rewrite !length_app.
  destruct (Z.ltb_spec (Z.max 0 (Z.of_nat (length before) - 400)) 0);
    [lia|].
  destruct (Z.ltb_spec
              (Z.of_nat (length before) + Z.of_nat (length seg) + 400) 0);
    [lia|].
  set (k := Z.to_nat (_ - _)). set (a := Z.to_nat _).
  assert (Ha : a = (length before - 400)%nat) by (unfold a; lia).
  assert (Hk : k = (length before - a + length seg
                    + Nat.min 400 (length after))%nat)
    by (unfold k, a; lia).
  rewrite window_split by lia. rewrite Ha. do 2 f_equal.
  rewrite <- (firstn_min after 400). f_equal. lia.
Qed.

(** The chosen segment is a paragraph of the document, and [index] finds
    its first occurrence. *)
Lemma chosen_paragraph_position q d seg :
  raw_snippet (keywords_from_query q 2) (content d) = Some seg ->
  In seg (split_to_paragraphs (content d))
  /\ exists before after,
       content d = before ++ seg ++ after
       /\ Py.index (content d) seg = Some (length before)
       /\ (forall j, (j < length before)%nat ->
             Py.startswith seg (skipn j (content d)) = false)
       /\ window (content d) seg (length before)
          = skipn (length before - 400) before ++ seg ++ firstn 400 after.
Proof.
  intros E. destruct (raw_snippet_paragraph _ _ _ E) as [Hp _].
  split; [exact Hp|].
  destruct (paragraphs_cut (content d)) as [Hsub _].
  destruct (index_total (Hsub seg Hp)) as (idx & Ei).
  destruct (index_sound _ _ Ei) as (t & Ec & Hle).
  exists (firstn idx (content d)), t.
  assert (Hl : length (firstn idx (content d)) = idx)
    by (rewrite length_firstn; lia).
  rewrite Hl. split; [exact Ec|]. split; [exact Ei|]. split.
  - intros j Hj. eapply index_first; eauto.
  - pose proof (window_explicit (firstn idx (content d)) seg t) as W.
    rewrite <- Ec in W. rewrite Hl in W. exact W.
Qed.

Section Citations.

Variable uni_decimal : char -> bool.
Variable uni_word : char -> bool.

(** C5.  When the chosen segment has no section label of its own, the label
    is searched in a window of the document: the segment at its first
    occurrence, with the 400 characters before it and the 400 characters
    after it, fewer where the document ends.  The label returned is the
    leftmost match of the pattern in that window, and it is [None] only
    when the pattern matches nowhere in the window.  The chosen segment is
    always a paragraph: the sentence pass never selects anything. *)
Theorem windowed_citation_lookup q d maxc seg :
  raw_snippet (keywords_from_query q 2) (content d) = Some seg ->
  extract_section_ref uni_decimal uni_word seg = None ->
  In seg (split_to_paragraphs (content d))
  /\ exists idx before after w,
       Py.index (content d) seg = Some idx
       /\ content d = before ++ seg ++ after
       /\ length before = idx
       /\ (forall j, (j < idx)%nat ->
             Py.startswith seg (skipn j (content d)) = false)
       /\ w = skipn (idx - 400) before ++ seg ++ firstn 400 after
       /\ window (content d) seg idx = w
       /\ best_snippet_for_query_in_doc uni_decimal uni_word q d maxc
          = Some (shorten seg maxc,
                  extract_section_ref uni_decimal uni_word w)
       /\ match extract_section_ref uni_decimal uni_word w with
          | Some ref =>
              exists pre post ws ds lab,
                w = pre ++ ref ++ post
                /\ ref = seif ++ ws ++ ds ++ lab
                /\ ws <> [] /\ blank_only ws
                /\ ds <> [] /\ sep_only uni_decimal ds
                /\ sep_only (is_label_char uni_word) lab
                /\ forall a b, pre = a ++ b -> b <> [] ->
                     _SECTION_REF_RE uni_decimal uni_word None
                       (b ++ ref ++ post) = None
          | None =>
              forall a b, w = a ++ b ->
                _SECTION_REF_RE uni_decimal uni_word None b = None
          end.
Proof.
  intros Hraw Hnone.
  destruct (chosen_paragraph_position _ _ Hraw)
    as (Hp & before & after & Ec & Ei & Hfirst & W).
  split; [exact Hp|].
  exists (length before), before, after,
    (skipn (length before - 400) before ++ seg ++ firstn 400 after).
  repeat (split; [first [exact Ei | exact Ec | exact Hfirst | exact W
                         | reflexivity]|]).
  split.
  - rewrite best_snippet_eq, Hraw. simpl. unfold section_lookup.
    now rewrite Hnone, Ei, W.
  - clear Hnone.
    destruct (extract_section_ref uni_decimal uni_word _) as [ref|] eqn:E.
    + cbv beta iota.
      destruct (@search_section_shape _ _ _ _ E)
        as (pre & post & ws & ds & lab & H).
      now exists pre, post, ws, ds, lab.
    + cbv beta iota. intros a b Hab.
      exact (@search_from_none _ _ None
               (section_ref_prev uni_decimal uni_word) E a b Hab).
Qed.

(** C9.  Every record returned by [retrieve] names an input document or
    carries the sentinel source, and its text is not empty.  A record other
    than the sentinel is built from the segment chosen for one of the
    queries in the document it names: its text is that segment, shortened,
    and its label is the match of the label pattern in that segment or,
    when the segment has none, the match in the window of 400 characters
    around the segment; the label is [None] only when the pattern matches
    in neither. *)
Theorem retrieved_section_invariants input_data m r :
  valid_input input_data ->
  In r (retrieve uni_decimal uni_word input_data m) ->
  (source_id r = NA
   \/ exists d, In d (criteria_documents input_data) /\ source_id r = id d)
  /\ text r <> []
  /\ ((r = not_found /\ section_ref r = None)
      \/ exists q d seg before after w,
           In q (criteria_queries input_data)
           /\ In d (criteria_documents input_data)
           /\ source_id r = id d
           /\ raw_snippet (keywords_from_query q 2) (content d) = Some seg
           /\ In seg (split_to_paragraphs (content d))
           /\ text r = shorten seg 700
           /\ content d = before ++ seg ++ after
           /\ Py.index (content d) seg = Some (length before)
           /\ w = skipn (length before - 400) before ++ seg
                  ++ firstn 400 after
           /\ match section_ref r with
              | Some ref =>
                  extract_section_ref uni_decimal uni_word seg = Some ref
                  \/ (extract_section_ref uni_decimal uni_word seg = None
                      /\ extract_section_ref uni_decimal uni_word w
                         = Some ref)
              | None =>
                  extract_section_ref uni_decimal uni_word seg = None
                  /\ extract_section_ref uni_decimal uni_word w = None
              end).
Proof.
  intros _ Hr. apply retrieve_In in Hr as (q & Hq & Hr).
  apply batch_In in Hr as [-> | (d & seg & Hd & Er & Hseg & ->)].
  - split; [now left|]. split; [discriminate | left; now split].
  - cbn [source_id text section_ref].
    split; [right; now exists d|]. split.
    + apply shorten_nonempty. eapply paragraph_strip_nonempty; eauto.
    + right.
      destruct (chosen_paragraph_position _ _ Er)
        as (_ & before & after & Ec & Ei & _ & W).
      exists q, d, seg, before, after,
        (skipn (length before - 400) before ++ seg ++ firstn 400 after).
      repeat (split; [first [exact Hq | exact Hd | exact Er | exact Hseg
                             | exact Ec | exact Ei | reflexivity]|]).
      unfold section_lookup. rewrite Ei, W.
      destruct (extract_section_ref uni_decimal uni_word seg) as [ref|];
        [now left|].
      destruct (extract_section_ref uni_decimal uni_word _) as [ref|];
        [right|]; now split.
Qed.

End Citations.

(** * Further concrete runs *)

Lemma match_score_monotone_witness :
  infix Run.aa (content Sample.plain)
  /\ (forall x,
        match_score x [Run.aa; [98%N]]
        = length (filter (hit x) [Run.aa; [98%N]]))
  /\ (forall x kw, hit x kw = true <-> kw <> [] /\ infix kw x)
  /\ (match_score Run.aa [Run.aa; [98%N]]
      <= match_score (content Sample.plain) [Run.aa; [98%N]])%nat
  /\ (match_score (content Sample.plain) [Run.aa; [98%N]]
      <= length (filter Py.truthy [Run.aa; [98%N]]))%nat
  /\ match_score [] [Run.aa; [98%N]] = O.
Proof.
  assert (Hi : infix Run.aa (content Sample.plain))
    by (exists [], [32; 98; 98]%N; reflexivity).
  split; [exact Hi|].
  exact (@match_score_monotone Run.aa (content Sample.plain)
           [Run.aa; [98%N]] Hi).
Defined.

Lemma keyword_order_irrelevant_witness :
  Permutation (keywords_from_query Sample.aa_bb 2)
    (keywords_from_query Sample.bb_aa 2)
  /\ best_snippet_for_query_in_doc basic_decimal basic_word
       Sample.aa_bb Sample.plain 700
     = best_snippet_for_query_in_doc basic_decimal basic_word
         Sample.bb_aa Sample.plain 700.
Proof.
  assert (Hp : Permutation (keywords_from_query Sample.aa_bb 2)
                 (keywords_from_query Sample.bb_aa 2))
    by (vm_compute; apply perm_swap).
  split; [exact Hp|].
  exact (@keyword_order_irrelevant basic_decimal basic_word
           Sample.aa_bb Sample.bb_aa Sample.plain 700 Hp).
Defined.

Lemma extract_section_ref_leftmost_witness :
  extract_section_ref basic_decimal basic_word (content Sample.labelled)
  = Some Sample.section_3
  /\ exists pre post ws ds lab,
       content Sample.labelled = pre ++ Sample.section_3 ++ post
       /\ Sample.section_3 = seif ++ ws ++ ds ++ lab
       /\ ws <> [] /\ blank_only ws
       /\ ds <> [] /\ sep_only basic_decimal ds
       /\ sep_only (is_label_char basic_word) lab
       /\ forall a b, pre = a ++ b -> b <> [] ->
            _SECTION_REF_RE basic_decimal basic_word None
              (b ++ Sample.section_3 ++ post) = None.
Proof.
  assert (He : extract_section_ref basic_decimal basic_word
                 (content Sample.labelled) = Some Sample.section_3)
    by (vm_compute; reflexivity).
  split; [exact He|].
  exact (@extract_section_ref_leftmost basic_decimal basic_word
           (content Sample.labelled) Sample.section_3 He).
Defined.

Lemma segments_keep_words_witness :
  solid [98; 98]%N /\ infix [98; 98]%N (content Sample.plain)
  /\ (exists p, In p (split_to_paragraphs (content Sample.plain))
                /\ infix [98; 98]%N p)
  /\ (exists s, In s (split_to_sentences (content Sample.plain))
                /\ infix [98; 98]%N s).
Proof.
  assert (Hs : solid [98; 98]%N)
    by (split; [discriminate | repeat constructor]).
  assert (Hi : infix [98; 98]%N (content Sample.plain))
    by (exists [97; 97; 32]%N, []; reflexivity).
  split; [exact Hs|]. split; [exact Hi|].
  exact (@segments_keep_words (content Sample.plain) [98; 98]%N Hs Hi).
Defined.

Lemma split_to_paragraphs_one_line_witness :
  Forall (fun c => Py.islinebreak c = false) (content Sample.plain)
  /\ split_to_paragraphs (content Sample.plain)
     = if Py.truthy (Py.strip (content Sample.plain))
       then [Py.strip (content Sample.plain)] else [].
Proof.
  assert (H : Forall (fun c => Py.islinebreak c = false)
                (content Sample.plain))
    by (repeat constructor).
  split; [exact H|].
  exact (@split_to_paragraphs_one_line (content Sample.plain) H).
Defined.

Lemma keywords_from_query_threshold_witness :
  (1 <= 2)%Z
  /\ keywords_from_query Run.age_query 2
     = filter (fun t => (2 <=? Z.of_nat (length t))%Z)
         (keywords_from_query Run.age_query 1).
Proof.
  assert (H : (1 <= 2)%Z) by lia.
  split; [exact H|].
  exact (@keywords_from_query_threshold Run.age_query 1 2 H).
Defined.

Lemma snippet_for_every_limit_witness :
  best_snippet_for_query_in_doc basic_decimal basic_word Run.aa
    Sample.plain 0
  = Some (ellipsis, None)
  /\ exists seg,
       In seg (split_to_paragraphs (content Sample.plain))
       /\ (((Z.of_nat (length seg) <= 0)%Z /\ ellipsis = seg)
           \/ ((0 <= 0 < Z.of_nat (length seg))%Z
               /\ ellipsis = Py.rstrip (firstn (Z.to_nat 0) seg) ++ ellipsis
               /\ (length ellipsis <= Z.to_nat 0 + 1)%nat
               /\ (0%Z = 0%Z -> ellipsis = ellipsis))
           \/ ((0 < 0)%Z
               /\ ellipsis
                  = Py.rstrip (firstn (length seg - Z.to_nat (- 0)) seg)
                    ++ ellipsis)).
Proof.
  assert (H : best_snippet_for_query_in_doc basic_decimal basic_word Run.aa
                Sample.plain 0 = Some (ellipsis, None))
    by (vm_compute; reflexivity).
  split; [exact H|].
  exact (@snippet_for_every_limit basic_decimal basic_word Run.aa
           Sample.plain 0 ellipsis None H).
Defined.

Lemma retrieved_text_quotes_document_witness :
  In Run.age_record (retrieve basic_decimal basic_word Run.age_input 1)
  /\ (Run.age_record = not_found
      \/ exists q d seg kw body,
           In q (criteria_queries Run.age_input)
           /\ In d (criteria_documents Run.age_input)
           /\ source_id Run.age_record = id d
           /\ In seg (split_to_paragraphs (content d))
           /\ infix seg (content d)
           /\ In kw (keywords_from_query q 2)
           /\ infix kw (normalize_hebrew seg)
           /\ infix body seg
           /\ (text Run.age_record = body
               \/ text Run.age_record = body ++ ellipsis)).
Proof.
  assert (Hin : In Run.age_record
                  (retrieve basic_decimal basic_word Run.age_input 1))
    by (vm_compute; left; reflexivity).
  split; [exact Hin|].
  exact (@retrieved_text_quotes_document basic_decimal basic_word
           Run.age_input 1 Run.age_record Hin).
Defined.

Lemma retrieved_label_from_document_witness :
  In Run.age_record (retrieve basic_decimal basic_word Run.age_input 1)
  /\ section_ref Run.age_record = Some Run.label
  /\ exists d ws ds lab,
       In d (criteria_documents Run.age_input)
       /\ source_id Run.age_record = id d
       /\ infix Run.label (content d)
       /\ Run.label = seif ++ ws ++ ds ++ lab
       /\ ws <> [] /\ blank_only ws
       /\ ds <> [] /\ sep_only basic_decimal ds
       /\ sep_only (is_label_char basic_word) lab.
Proof.
  assert (Hin : In Run.age_record
                  (retrieve basic_decimal basic_word Run.age_input 1))
    by (vm_compute; left; reflexivity).
  assert (Hl : section_ref Run.age_record = Some Run.label)
    by reflexivity.
  split; [exact Hin|]. split; [exact Hl|].
  exact (@retrieved_label_from_document basic_decimal basic_word
           Run.age_input 1 Run.age_record Run.label Hin Hl).
Defined.

Lemma inline_label_preferred_witness :
  raw_snippet (keywords_from_query Run.aa 2) (content Sample.labelled)
  = Some (content Sample.labelled)
  /\ extract_section_ref basic_decimal basic_word (content Sample.labelled)
     = Some Sample.section_3
  /\ best_snippet_for_query_in_doc basic_decimal basic_word Run.aa
       Sample.labelled 700
     = Some (shorten (content Sample.labelled) 700, Some Sample.section_3)
  /\ infix Sample.section_3 (content Sample.labelled).
Proof.
  assert (Hr : raw_snippet (keywords_from_query Run.aa 2)
                 (content Sample.labelled)
               = Some (content Sample.labelled))
    by (vm_compute; reflexivity).
  assert (He : extract_section_ref basic_decimal basic_word
                 (content Sample.labelled) = Some Sample.section_3)
    by (vm_compute; reflexivity).
  split; [exact Hr|]. split; [exact He|].
  exact (@inline_label_preferred basic_decimal basic_word Run.aa
           Sample.labelled 700 (content Sample.labelled) Sample.section_3
           Hr He).
Defined.

Lemma window_bounds_witness :
  Py.index (content Run.law) Run.age_line = Some 17%nat
  /\ infix Run.age_line (window (content Run.law) Run.age_line 17)
  /\ infix (window (content Run.law) Run.age_line 17) (content Run.law)
  /\ (length (window (content Run.law) Run.age_line 17)
      <= length Run.age_line + 800)%nat
  /\ ((17 <= 400)%nat ->
      (length (content Run.law) <= 17 + length Run.age_line + 400)%nat ->
      window (content Run.law) Run.age_line 17 = content Run.law).
Proof.
  assert (H : Py.index (content Run.law) Run.age_line = Some 17%nat)
    by (vm_compute; reflexivity).
  split; [exact H|].
  exact (@window_bounds (content Run.law) Run.age_line 17 H).
Defined.

Lemma batch_cites_first_matches_witness :
  (1 <= 1)%Z
  /\ unmatched basic_decimal basic_word
       (criteria_documents Run.one_doc_input) Run.aa = false
  /\ map source_id
       (batch basic_decimal basic_word
          (criteria_documents Run.one_doc_input) 1 Run.aa)
     = firstn (Z.to_nat 1)
         (map id
            (filter (matches basic_decimal basic_word Run.aa)
               (criteria_documents Run.one_doc_input))).
Proof.
  assert (Hm : (1 <= 1)%Z) by lia.
  assert (Hu : unmatched basic_decimal basic_word
                 (criteria_documents Run.one_doc_input) Run.aa = false)
    by (vm_compute; reflexivity).
  split; [exact Hm|]. split; [exact Hu|].
  exact (@batch_cites_first_matches basic_decimal basic_word
           (criteria_documents Run.one_doc_input) 1 Run.aa Hm Hu).
Defined.

Lemma retrieve_size_witness :
  (1 <= 1)%Z
  /\ (length (criteria_queries Run.age_input)
      <= length (retrieve basic_decimal basic_word Run.age_input 1)
      <= length (criteria_queries Run.age_input) * Z.to_nat 1)%nat
  /\ (valid_input Run.age_input ->
      retrieve basic_decimal basic_word Run.age_input 1 <> []).
Proof.
  assert (Hm : (1 <= 1)%Z) by lia.
  split; [exact Hm|].
  exact (@retrieve_size basic_decimal basic_word Run.age_input 1 Hm).
Defined.

Lemma windowed_citation_lookup_witness :
  raw_snippet (keywords_from_query Run.age_query 2) (content Run.law)
  = Some Run.age_line
  /\ extract_section_ref basic_decimal basic_word Run.age_line = None
  /\ best_snippet_for_query_in_doc basic_decimal basic_word
       Run.age_query Run.law 700
     = Some (Run.age_line, Some Run.label)
  /\ In Run.age_line (split_to_paragraphs (content Run.law))
  /\ exists idx before after w,
       Py.index (content Run.law) Run.age_line = Some idx
       /\ content Run.law = before ++ Run.age_line ++ after
       /\ length before = idx
       /\ (forall j, (j < idx)%nat ->
             Py.startswith Run.age_line (skipn j (content Run.law)) = false)
       /\ w = skipn (idx - 400) before ++ Run.age_line ++ firstn 400 after
       /\ window (content Run.law) Run.age_line idx = w
       /\ best_snippet_for_query_in_doc basic_decimal basic_word
            Run.age_query Run.law 700
          = Some (shorten Run.age_line 700,
                  extract_section_ref basic_decimal basic_word w)
       /\ match extract_section_ref basic_decimal basic_word w with
          | Some ref =>
              exists pre post ws ds lab,
                w = pre ++ ref ++ post
                /\ ref = seif ++ ws ++ ds ++ lab
                /\ ws <> [] /\ blank_only ws
                /\ ds <> [] /\ sep_only basic_decimal ds
                /\ sep_only (is_label_char basic_word) lab
                /\ forall a b, pre = a ++ b -> b <> [] ->
                     _SECTION_REF_RE basic_decimal basic_word None
                       (b ++ ref ++ post) = None
          | None =>
              forall a b, w = a ++ b ->
                _SECTION_REF_RE basic_decimal basic_word None b = None
          end.
Proof.
  assert (Hraw : raw_snippet (keywords_from_query Run.age_query 2)
                   (content Run.law) = Some Run.age_line)
    by (vm_compute; reflexivity).
  assert (Hnone : extract_section_ref basic_decimal basic_word Run.age_line
                  = None)
    by (vm_compute; reflexivity).
  split; [exact Hraw|]. split; [exact Hnone|].
  split; [vm_compute; reflexivity|].
  exact (@windowed_citation_lookup basic_decimal basic_word
           Run.age_query Run.law 700 Run.age_line Hraw Hnone).
Defined.

Lemma retrieved_section_invariants_witness :
  valid_input Run.age_input
  /\ In Run.age_record (retrieve basic_decimal basic_word Run.age_input 1)
  /\ section_ref Run.age_record = Some Run.label
  /\ (source_id Run.age_record = NA
      \/ exists d, In d (criteria_documents Run.age_input)
                   /\ source_id Run.age_record = id d)
  /\ text Run.age_record <> []
  /\ ((Run.age_record = not_found /\ section_ref Run.age_record = None)
      \/ exists q d seg before after w,
           In q (criteria_queries Run.age_input)
           /\ In d (criteria_documents Run.age_input)
           /\ source_id Run.age_record = id d
           /\ raw_snippet (keywords_from_query q 2) (content d) = Some seg
           /\ In seg (split_to_paragraphs (content d))
           /\ text Run.age_record = shorten seg 700
           /\ content d = before ++ seg ++ after
           /\ Py.index (content d) seg = Some (length before)
           /\ w = skipn (length before - 400) before ++ seg
                  ++ firstn 400 after
           /\ (extract_section_ref basic_decimal basic_word seg
               = Some Run.label
               \/ (extract_section_ref basic_decimal basic_word seg = None
                   /\ extract_section_ref basic_decimal basic_word w
                      = Some Run.label))).
Proof.
  assert (Hv : valid_input Run.age_input) by valid_by_computation.
  assert (Hin : In Run.age_record
                  (retrieve basic_decimal basic_word Run.age_input 1))
    by (vm_compute; left; reflexivity).
  split; [exact Hv|]. split; [exact Hin|]. split; [reflexivity|].
  exact (@retrieved_section_invariants basic_decimal basic_word
           Run.age_input 1 Run.age_record Hv Hin).
Defined.
